(** * datamatrix._functional._memoize: the [memoize] decorator

    A shallow embedding of [src/datamatrix/_functional/_memoize.py] and the
    properties of its two-tier cache.

    The class is modelled method by method, in a state-and-exception monad
    over the receiver ([self]), the file system, the state the user's
    callables can touch, and a log of the calls the wrapper makes.  The
    state survives an exception, as it does in Python.  The collaborators
    that the module imports ([pickle], [hashlib.md5]) and the behaviour of
    the callables handed to the wrapper are interfaces (type classes): every
    theorem holds for each implementation of them.

    Boundaries of the model: a user's callable reads and writes the user's
    state only (it neither calls back into the wrapper nor touches the
    storage folder), and only the wrapper changes the file system; the
    storage folder is an entry of the working directory and a cache key is a
    plain file name in it; a keyword dictionary is a list of pairs with
    distinct keys, in insertion order. *)

From Stdlib Require Import ZArith Ascii String List.
From Stdlib.Strings Require Import Byte.
From stdpp Require Import base tactics option list strings gmap.

Set Default Proof Using "Type".
Open Scope string_scope.
Open Scope list_scope.
Open Scope nat_scope.

(** ** Python values *)

(** A callable object ([code]): its identity, its [__name__] attribute (functions and
    classes have one; a [functools.partial] or an instance with [__call__]
    has none) and the names of the further attributes set on it. *)
Record code := Code {
  co_id   : nat;
  co_name : option string;
  co_dict : list string
}.

#[warnings="-register-all"]
Inductive value : Type :=
| VNone
| VBool (b : bool)
| VInt (n : Z)
| VStr (s : string)
| VList (xs : list value)
| VTuple (xs : list value)
| VDict (kvs : list (string * value))
| VFun (c : code).

(** Keyword arguments: a dict with string keys, in insertion order. *)
Abbreviation kwdict := (list (string * value)).

Abbreviation bytes := (list byte).

Inductive exn :=
| AttributeError (attr : string)
| TypeError
| PicklingError
| UnpicklingError
| FileNotFoundError
| FileExistsError
| NotADirectoryError
| IsADirectoryError
| Exception (msg : string).

Inductive result (A : Type) :=
| Ok (a : A)
| Raise (e : exn).
Arguments Ok {A} a.
Arguments Raise {A} e.

Definition callable (v : value) : bool :=
  match v with VFun _ => true | _ => false end.

Definition is_None (v : value) : bool :=
  match v with VNone => true | _ => false end.

(** [hasattr(v, attr)], for the attributes the model tracks. *)
Definition hasattr (v : value) (attr : string) : bool :=
  match v with
  | VFun c =>
      (bool_decide (attr = "__name__") && bool_decide (is_Some (co_name c)))
      || bool_decide (attr ∈ co_dict c)
  | _ => false
  end.

(** [v.__name__] *)
Definition getattr___name__ (v : value) : result value :=
  match v with
  | VFun c =>
      match co_name c with
      | Some n => Ok (VStr n)
      | None => Raise (AttributeError "__name__")
      end
  | _ => Raise (AttributeError "__name__")
  end.

Fixpoint mapR {A B} (f : A → result B) (l : list A) : result (list B) :=
  match l with
  | [] => Ok []
  | a :: l =>
      match f a with
      | Ok b => match mapR f l with Ok bs => Ok (b :: bs) | Raise e => Raise e end
      | Raise e => Raise e
      end
  end.

(** What [_memkey] puts in place of a positional argument:
    [(arg.__name__ if hasattr(arg, '__name') else '__nameless__')
     if callable(arg) else arg] *)
Definition memkey_arg (arg : value) : result value :=
  if callable arg then
    if hasattr arg "__name" then getattr___name__ arg
    else Ok (VStr "__nameless__")
  else Ok arg.

(** ** Collaborators *)

(** [pickle.dumps] and [pickle.loads]; both can raise. *)
Class Pickle := {
  pickle_dumps : value → result bytes;
  pickle_loads : bytes → result value
}.

(** [hashlib.md5(b).hexdigest()] *)
Class Hashlib := {
  md5_hexdigest : bytes → string
}.

(** What calling a callable does: it reads and writes the user's state and
    returns or raises. *)
Class Program (heap : Type) := {
  apply : code → list value → kwdict → heap → result value * heap
}.

(** ** The file system *)

(** A path names either an entry of the working directory or, through
    [os.path.join], an entry of one of its directories.  Cache keys are taken
    to be plain file names. *)
Inductive node :=
| File (content : bytes)
| Dir (entries : gmap string bytes).

Abbreviation filesystem := (gmap string node).

Inductive path :=
| Name (p : string)
| Join (dir : string) (name : string).

Definition os_path_join (folder name : string) : path := Join folder name.

Definition os_path_exists (fs : filesystem) (p : path) : bool :=
  match p with
  | Name d => bool_decide (is_Some (fs !! d))
  | Join d n =>
      match fs !! d with
      | Some (Dir es) => bool_decide (is_Some (es !! n))
      | _ => false
      end
  end.

Definition os_mkdir (fs : filesystem) (d : string) : result filesystem :=
  match fs !! d with
  | None => Ok (<[d := Dir ∅]> fs)
  | Some _ => Raise FileExistsError
  end.

Definition shutil_rmtree (fs : filesystem) (d : string) : result filesystem :=
  match fs !! d with
  | Some (Dir _) => Ok (delete d fs)
  | Some (File _) => Raise NotADirectoryError
  | None => Raise FileNotFoundError
  end.

(** [open(p, 'rb').read()] *)
Definition read_file (fs : filesystem) (p : path) : result bytes :=
  match p with
  | Name d =>
      match fs !! d with
      | Some (File b) => Ok b
      | Some (Dir _) => Raise IsADirectoryError
      | None => Raise FileNotFoundError
      end
  | Join d n =>
      match fs !! d with
      | Some (Dir es) =>
          match es !! n with Some b => Ok b | None => Raise FileNotFoundError end
      | Some (File _) => Raise NotADirectoryError
      | None => Raise FileNotFoundError
      end
  end.

(** [open(p, 'wb').write(b)] *)
Definition write_file (fs : filesystem) (p : path) (b : bytes) : result filesystem :=
  match p with
  | Name d =>
      match fs !! d with
      | Some (Dir _) => Raise IsADirectoryError
      | _ => Ok (<[d := File b]> fs)
      end
  | Join d n =>
      match fs !! d with
      | Some (Dir es) => Ok (<[d := Dir (<[n := b]> es)]> fs)
      | Some (File _) => Raise NotADirectoryError
      | None => Raise FileNotFoundError
      end
  end.

(** ** The wrapper object *)

Record memoize := Memoize {
  _fnc : value;
  _key : option string;
  _persistent : bool;
  _lazy : bool;
  _debug : bool;
  _folder : string;
  _cache : gmap string bytes;
  (** unset until the first [_read_cache] *)
  _latest_source : option string
}.

Definition set_cache (c : gmap string bytes) (o : memoize) : memoize :=
  Memoize (_fnc o) (_key o) (_persistent o) (_lazy o) (_debug o) (_folder o)
          c (_latest_source o).

Definition set_latest_source (src : string) (o : memoize) : memoize :=
  Memoize (_fnc o) (_key o) (_persistent o) (_lazy o) (_debug o) (_folder o)
          (_cache o) (Some src).

(** The same wrapper with the debug flag [d]. *)
Definition set_debug (d : bool) (o : memoize) : memoize :=
  Memoize (_fnc o) (_key o) (_persistent o) (_lazy o) d (_folder o)
          (_cache o) (_latest_source o).

(** The configuration of a wrapper: everything but its cache state. *)
Definition config (o : memoize) : value * option string * bool * bool * bool * string :=
  (_fnc o, _key o, _persistent o, _lazy o, _debug o, _folder o).

(** The calls that the wrapper makes: of the wrapped function, in
    [_call_without_arguments], and of a callable argument, in
    [_lazy_evaluation]. *)
Inductive event :=
| Invoked (c : code) (args : list value) (kwargs : kwdict)
| Forced (c : code).

Definition is_Invoked (e : event) : bool :=
  match e with Invoked _ _ _ => true | Forced _ => false end.

Section memoize.
Context {heap : Type}.
Context `{!Pickle, !Hashlib, !Program heap}.

Record state := State {
  self : memoize;
  fs : filesystem;
  user : heap;
  trace : list event
}.

Definition with_self (o : memoize) (s : state) : state :=
  State o (fs s) (user s) (trace s).
Definition with_fs (f : filesystem) (s : state) : state :=
  State (self s) f (user s) (trace s).

(** *** The monad: state that survives an exception *)

Definition M (A : Type) : Type := state → result A * state.

Definition ret {A} (a : A) : M A := λ s, (Ok a, s).
Definition raise {A} (e : exn) : M A := λ s, (Raise e, s).
Definition bind {A B} (m : M A) (k : A → M B) : M B :=
  λ s, match m s with
       | (Ok a, s') => k a s'
       | (Raise e, s') => (Raise e, s')
       end.

#[local] Notation "x <- m ;; k" := (bind m (λ x, k))
  (at level 100, m at next level, right associativity).
#[local] Notation "m ;;; k" := (bind m (λ _, k))
  (at level 100, right associativity).

Definition lift {A} (r : result A) : M A := λ s, (r, s).
Definition get_self : M memoize := λ s, (Ok (self s), s).
Definition modify_self (f : memoize → memoize) : M unit :=
  λ s, (Ok tt, with_self (f (self s)) s).
Definition get_fs : M filesystem := λ s, (Ok (fs s), s).
(** A file-system operation: the file system changes only when it succeeds. *)
Definition update_fs (op : filesystem → result filesystem) : M unit :=
  λ s, match op (fs s) with
       | Ok f => (Ok tt, with_fs f s)
       | Raise e => (Raise e, s)
       end.

Fixpoint mapM {A B} (f : A → M B) (l : list A) : M (list B) :=
  match l with
  | [] => ret []
  | a :: l => b <- f a ;; bs <- mapM f l ;; ret (b :: bs)
  end.

(** [f( *args, **kwargs)]: logged as [ev], then run on the user's state. *)
Definition call_object (ev : code → event) (f : value)
    (args : list value) (kwargs : kwdict) : M value :=
  match f with
  | VFun c =>
      λ s, let '(r, h) := apply c args kwargs (user s) in
           (r, State (self s) (fs s) h (trace s ++ [ev c]))
  | _ => raise TypeError
  end.

(** [arg() if callable(arg) else arg] *)
Definition lazy_arg (arg : value) : M value :=
  if callable arg then call_object Forced arg [] [] else ret arg.

(** [run_on o m]: [m] with [o] as its receiver; the caller's [self] is kept. *)
Definition run_on {A} (o : memoize) (m : M A) : M (A * memoize) :=
  λ s, match m (with_self o s) with
       | (Ok a, s') => (Ok (a, self s'), with_self (self s) s')
       | (Raise e, s') => (Raise e, with_self (self s) s')
       end.

(** *** The methods of [memoize] *)

Definition _init_cache : M unit :=
  modify_self (set_cache ∅) ;;;
  o <- get_self ;;
  f <- get_fs ;;
  if _persistent o && negb (os_path_exists f (Name (_folder o)))
  then update_fs (λ f, os_mkdir f (_folder o))
  else ret tt.

Definition __init__ (fnc : value) (key : option string)
    (persistent lazy debug : bool) (folder : string) : M unit :=
  modify_self (λ _, Memoize fnc key persistent lazy debug folder ∅ None) ;;;
  _init_cache.

(** [memoize(fnc, key=..., ...)]: a new object, initialised by [__init__]. *)
Definition new_memoize (fnc : value) (key : option string)
    (persistent lazy debug : bool) (folder : string) : M memoize :=
  r <- run_on (Memoize VNone None false false false "" ∅ None)
         (__init__ fnc key persistent lazy debug folder) ;;
  ret (snd r).

Definition clear : M unit :=
  o <- get_self ;;
  f <- get_fs ;;
  (if _persistent o && os_path_exists f (Name (_folder o))
   then update_fs (λ f, shutil_rmtree f (_folder o))
   else ret tt) ;;;
  _init_cache.

Definition _call_with_arguments (fnc : value) : M memoize :=
  o <- get_self ;;
  new_memoize fnc (_key o) (_persistent o) (_lazy o) (_debug o) (_folder o).

Definition _lazy_evaluation (args : list value) (kwargs : kwdict)
    : M (list value * kwdict) :=
  args' <- mapM lazy_arg args ;;
  kwargs' <- mapM (λ kv, val <- lazy_arg (snd kv) ;; ret (fst kv, val)) kwargs ;;
  ret (args', kwargs').

Definition _read_cache (memkey : string) : M (bool * value) :=
  o <- get_self ;;
  match _cache o !! memkey with
  | Some b =>
      modify_self (set_latest_source "memory") ;;;
      v <- lift (pickle_loads b) ;;
      ret (true, v)
  | None =>
      f <- get_fs ;;
      let cache_path := os_path_join (_folder o) memkey in
      if _persistent o && os_path_exists f cache_path then
        modify_self (set_latest_source "disk") ;;;
        b <- lift (read_file f cache_path) ;;
        v <- lift (pickle_loads b) ;;
        ret (true, v)
      else
        modify_self (set_latest_source "function") ;;;
        ret (false, VNone)
  end.

(** [(retval, memkey, self._latest_source) if self._debug else retval] *)
Definition report (retval : value) (memkey : string) : M value :=
  o <- get_self ;;
  if _debug o then
    match _latest_source o with
    | Some src => ret (VTuple [retval; VStr memkey; VStr src])
    | None => raise (AttributeError "_latest_source")
    end
  else ret retval.

Definition _write_cache (memkey : string) (retval : value) : M value :=
  b <- lift (pickle_dumps retval) ;;
  modify_self (λ o, set_cache (<[memkey := b]> (_cache o)) o) ;;;
  o <- get_self ;;
  (if _persistent o then
     f <- get_fs ;;
     let cache_path := os_path_join (_folder o) memkey in
     if negb (os_path_exists f cache_path)
     then update_fs (λ f, write_file f cache_path b)
     else ret tt
   else ret tt) ;;;
  report retval memkey.

Definition _memkey (args : list value) (kwargs : kwdict) : M string :=
  args' <- lift (mapR memkey_arg args) ;;
  o <- get_self ;;
  name <- lift (getattr___name__ (_fnc o)) ;;
  b <- lift (pickle_dumps (VList [name; VList args'; VDict kwargs])) ;;
  ret (md5_hexdigest b).

Definition _call_without_arguments (args : list value) (kwargs : kwdict) : M value :=
  o <- get_self ;;
  memkey <- match _key o with
            | None => _memkey args kwargs
            | Some k => ret k
            end ;;
  r <- _read_cache memkey ;;
  if fst r then report (snd r) memkey
  else
    o <- get_self ;;
    ak <- (if _lazy o then _lazy_evaluation args kwargs else ret (args, kwargs)) ;;
    o <- get_self ;;
    retval <- call_object (λ c, Invoked c (fst ak) (snd ak)) (_fnc o) (fst ak) (snd ak) ;;
    _write_cache memkey retval.

(** What calling the wrapper gives: a wrapper around the argument, or the
    wrapped function's value. *)
Inductive outcome :=
| Wrapper (w : memoize)
| Returned (v : value).

(** The property [__call__] picks the bound method, which is then applied. *)
Definition __call__ (args : list value) (kwargs : kwdict) : M outcome :=
  o <- get_self ;;
  if is_None (_fnc o) then
    match args, kwargs with
    | [fnc], [] => w <- _call_with_arguments fnc ;; ret (Wrapper w)
    | [], [(k, fnc)] =>
        if bool_decide (k = "fnc")
        then w <- _call_with_arguments fnc ;; ret (Wrapper w)
        else raise TypeError
    | _, _ => raise TypeError
    end
  else v <- _call_without_arguments args kwargs ;; ret (Returned v).

(** *** The vocabulary of the properties

    What the methods compute, as functions of the state they start from.
    The section on properties relates each of them to the method it
    describes: [derive_key] to the key that [_call_without_arguments] uses
    ([call_key_run]), [stored] to [_read_cache] ([_read_cache_run]),
    [reported] to the value returned ([report_run]), [passes] to
    [_lazy_evaluation] ([passes_run]). *)

(** The structure that [_memkey] serializes. *)
Definition key_input (o : memoize) (args : list value) (kwargs : kwdict)
    : result value :=
  match mapR memkey_arg args with
  | Ok args' =>
      match getattr___name__ (_fnc o) with
      | Ok name => Ok (VList [name; VList args'; VDict kwargs])
      | Raise e => Raise e
      end
  | Raise e => Raise e
  end.

(** The key of a call: the explicit key, or the digest of the serialized
    structure. *)
Definition derive_key (o : memoize) (args : list value) (kwargs : kwdict)
    : result string :=
  match _key o with
  | Some k => Ok k
  | None =>
      match key_input o args kwargs with
      | Ok v =>
          match pickle_dumps v with
          | Ok b => Ok (md5_hexdigest b)
          | Raise e => Raise e
          end
      | Raise e => Raise e
      end
  end.

(** The two tiers: the entry of a key and the tier that holds it, memory
    before disk, and disk only for a persistent wrapper. *)
Definition stored (o : memoize) (f : filesystem) (k : string)
    : option (string * bytes) :=
  match _cache o !! k with
  | Some b => Some ("memory", b)
  | None =>
      if _persistent o then
        match f !! _folder o with
        | Some (Dir es) =>
            match es !! k with Some b => Some ("disk", b) | None => None end
        | _ => None
        end
      else None
  end.

(** What a call returns for the value [retval]: the value, or in debug mode
    the triple of value, key and tier. *)
Definition reported (o : memoize) (retval : value) (k tier : string) : value :=
  if _debug o then VTuple [retval; VStr k; VStr tier] else retval.

(** The state after a lookup: only the recorded tier has changed. *)
Definition looked_up (tier : string) (s : state) : state :=
  with_self (set_latest_source tier (self s)) s.

(** Lazy resolution, as a relation: from the user's state [h], the arguments
    [xs] resolve to [ys], forcing the callables [cs] in this order and
    leaving the user's state [h']. *)
Inductive resolves : list value → heap → list value → list code → heap → Prop :=
| resolves_nil h : resolves [] h [] [] h
| resolves_plain x xs h ys cs h' :
    callable x = false →
    resolves xs h ys cs h' →
    resolves (x :: xs) h (x :: ys) cs h'
| resolves_force c xs h y h1 ys cs h' :
    apply c [] [] h = (Ok y, h1) →
    resolves xs h1 ys cs h' →
    resolves (VFun c :: xs) h (y :: ys) (c :: cs) h'.

(** The arguments [args'], [kwargs'] that the wrapped function receives for
    the call arguments [args], [kwargs]: resolved when lazy evaluation is
    on, positional arguments first, and passed as they are otherwise. *)
Definition passes (o : memoize) (args : list value) (kwargs : kwdict) (h : heap)
    (args' : list value) (kwargs' : kwdict) (cs : list code) (h' : heap) : Prop :=
  if _lazy o then
    ∃ cs1 cs2 h1,
      cs = cs1 ++ cs2 ∧
      resolves args h args' cs1 h1 ∧
      resolves (kwargs.*2) h1 (kwargs'.*2) cs2 h' ∧
      kwargs'.*1 = kwargs.*1
  else args' = args ∧ kwargs' = kwargs ∧ cs = [] ∧ h' = h.

(** The callables among the arguments, in order. *)
Definition callables_of (xs : list value) : list code :=
  omap (λ x, match x with VFun c => Some c | _ => None end) xs.

(** One more call of the wrapper, whatever its arguments and its outcome. *)
Definition call_step (s s' : state) : Prop :=
  ∃ args kwargs, s' = snd (_call_without_arguments args kwargs s).

(** The number of times the wrapped function was called. *)
Definition invocations (t : list event) : nat := length (filter is_Invoked t).

End memoize.

Arguments state : clear implicits.
Arguments M : clear implicits.

(** ** A small implementation of the collaborators

    Used to run the model on concrete calls. *)
Module Toy.

Definition bits (p : positive) : string :=
  (fix go p := match p with
               | xH => "1"
               | xO p => String "0"%char (go p)
               | xI p => String "1"%char (go p)
               end) p.

Definition enc_Z (n : Z) : string :=
  match n with
  | Z0 => "I0."
  | Zpos p => "I+" +:+ bits p +:+ "."
  | Zneg p => "I-" +:+ bits p +:+ "."
  end.

Fixpoint enc_str (s : string) : string :=
  match s with
  | EmptyString => "."
  | String c s => String ":"%char (String c (enc_str s))
  end.

Definition opt_app (a b : option string) : option string :=
  match a, b with Some x, Some y => Some (x +:+ y) | _, _ => None end.

(** Callables are not serializable. *)
Fixpoint encode (v : value) : option string :=
  match v with
  | VNone => Some "N"
  | VBool true => Some "T"
  | VBool false => Some "F"
  | VInt n => Some (enc_Z n)
  | VStr s => Some (String "S"%char (enc_str s))
  | VList xs =>
      opt_app (Some "[")
        ((fix go xs := match xs with
                       | [] => Some "]"
                       | x :: xs => opt_app (encode x) (go xs)
                       end) xs)
  | VTuple xs =>
      opt_app (Some "(")
        ((fix go xs := match xs with
                       | [] => Some ")"
                       | x :: xs => opt_app (encode x) (go xs)
                       end) xs)
  | VDict kvs =>
      opt_app (Some "{")
        ((fix go kvs := match kvs with
                        | [] => Some "}"
                        | (k, x) :: kvs =>
                            opt_app (Some (enc_str k)) (opt_app (encode x) (go kvs))
                        end) kvs)
  | VFun _ => None
  end.

Fixpoint dec_bits (s : string) : option (positive * string) :=
  match s with
  | String "1"%char (String "."%char r) => Some (xH, r)
  | String "0"%char r => match dec_bits r with Some (p, r) => Some (xO p, r) | None => None end
  | String "1"%char r => match dec_bits r with Some (p, r) => Some (xI p, r) | None => None end
  | _ => None
  end.

Fixpoint dec_str (s : string) : option (string * string) :=
  match s with
  | String "."%char r => Some (EmptyString, r)
  | String ":"%char (String c r) =>
      match dec_str r with Some (x, r) => Some (String c x, r) | None => None end
  | _ => None
  end.

Fixpoint decode (fuel : nat) (s : string) : option (value * string) :=
  match fuel with
  | O => None
  | S fuel =>
      let items := fix items (n : nat) (close : Ascii.ascii) (s : string)
                       : option (list value * string) :=
        match n with
        | O => None
        | S n =>
            match s with
            | String c r =>
                if Ascii.eqb c close then Some ([], r)
                else match decode fuel s with
                     | Some (x, r) =>
                         match items n close r with
                         | Some (xs, r) => Some (x :: xs, r)
                         | None => None
                         end
                     | None => None
                     end
            | EmptyString => None
            end
        end in
      let pairs := fix pairs (n : nat) (s : string)
                       : option (list (string * value) * string) :=
        match n with
        | O => None
        | S n =>
            match s with
            | String "}"%char r => Some ([], r)
            | _ =>
                match dec_str s with
                | Some (k, r) =>
                    match decode fuel r with
                    | Some (x, r) =>
                        match pairs n r with
                        | Some (kvs, r) => Some ((k, x) :: kvs, r)
                        | None => None
                        end
                    | None => None
                    end
                | None => None
                end
            end
        end in
      match s with
      | String "N"%char r => Some (VNone, r)
      | String "T"%char r => Some (VBool true, r)
      | String "F"%char r => Some (VBool false, r)
      | String "I"%char (String "0"%char (String "."%char r)) => Some (VInt 0, r)
      | String "I"%char (String "+"%char r) =>
          match dec_bits r with Some (p, r) => Some (VInt (Zpos p), r) | None => None end
      | String "I"%char (String "-"%char r) =>
          match dec_bits r with Some (p, r) => Some (VInt (Zneg p), r) | None => None end
      | String "S"%char r =>
          match dec_str r with Some (x, r) => Some (VStr x, r) | None => None end
      | String "["%char r =>
          match items (String.length s) "]"%char r with
          | Some (xs, r) => Some (VList xs, r)
          | None => None
          end
      | String "("%char r =>
          match items (String.length s) ")"%char r with
          | Some (xs, r) => Some (VTuple xs, r)
          | None => None
          end
      | String "{"%char r =>
          match pairs (String.length s) r with
          | Some (kvs, r) => Some (VDict kvs, r)
          | None => None
          end
      | _ => None
      end
  end.

Definition dumps (v : value) : result bytes :=
  match encode v with
  | Some s => Ok (list_byte_of_string s)
  | None => Raise PicklingError
  end.

Definition loads (b : bytes) : result value :=
  let s := string_of_list_byte b in
  match decode (S (String.length s)) s with
  | Some (v, EmptyString) => Ok v
  | _ => Raise UnpicklingError
  end.

#[export] Instance pickle : Pickle := {| pickle_dumps := dumps; pickle_loads := loads |}.

Definition hex_digit (n : N) : Ascii.ascii :=
  match n with
  | 0 => "0" | 1 => "1" | 2 => "2" | 3 => "3" | 4 => "4" | 5 => "5" | 6 => "6"
  | 7 => "7" | 8 => "8" | 9 => "9" | 10 => "a" | 11 => "b" | 12 => "c"
  | 13 => "d" | 14 => "e" | _ => "f"
  end%N%char.

Fixpoint hex (width : nat) (n : N) (acc : string) : string :=
  match width with
  | O => acc
  | S w => hex w (n / 16)%N (String (hex_digit (n mod 16)%N) acc)
  end.

(** A 32-bit polynomial checksum, printed as eight hexadecimal digits. *)
Definition checksum (b : bytes) : string :=
  hex 8 (fold_left (λ h x, ((h * 31 + Byte.to_N x) mod 2 ^ 32)%N) b 7%N) "".

#[export] Instance hashlib : Hashlib := {| md5_hexdigest := checksum |}.

(** The user's program: the state is an invocation counter; [add] (id 0)
    adds two integers and counts the call, [two] (id 1) returns 2; the other
    callables cannot be called. *)
Definition add : code := Code 0 (Some "add") [].
Definition two : code := Code 1 (Some "two") [].

Definition run (c : code) (args : list value) (kwargs : kwdict) (n : nat)
    : result value * nat :=
  match co_id c, args, kwargs with
  | 0, [VInt a; VInt b], [] => (Ok (VInt (a + b)), S n)
  | 1, [], [] => (Ok (VInt 2), n)
  | _, _, _ => (Raise TypeError, n)
  end.

#[export] Instance program : Program nat := {| apply := run |}.

(** A process that has just started: no files, the counter at zero. *)
Definition boot : state nat :=
  State (Memoize VNone None false false false "" ∅ None) ∅ 0 [].

(** [memoize(add, key=..., persistent=..., lazy=..., debug=...)] there. *)
Definition wrap (key : option string) (persistent lazy debug : bool) : state nat :=
  snd (__init__ (VFun add) key persistent lazy debug ".memoize" boot).

(** The same wrapper built in a new process that finds the files of [s]. *)
Definition restart (key : option string) (persistent lazy debug : bool)
    (s : state nat) : state nat :=
  snd (__init__ (VFun add) key persistent lazy debug ".memoize"
         (State (self boot) (fs s) 0 [])).

(** Two callables without a [__name__], as [functools.partial] builds them. *)
Definition partial1 : code := Code 7 None [].

(** Two functions with different names. *)
Definition named_g : code := Code 5 (Some "g") [].
Definition named_h : code := Code 6 (Some "h") [].

End Toy.

(** A second program: [make] (id 2) takes no arguments, counts the call and
    returns a callable, which the serializer above rejects; the other
    callables behave as in [Toy]. *)
Module Factory.

Definition make : code := Code 2 (Some "make") [].

Definition run (c : code) (args : list value) (kwargs : kwdict) (n : nat)
    : result value * nat :=
  match co_id c, args, kwargs with
  | 2, [], [] => (Ok (VFun Toy.two), S n)
  | _, _, _ => Toy.run c args kwargs n
  end.

Definition program : Program nat := {| apply := run |}.

End Factory.

(** ** Properties *)

Section properties.
Context {heap : Type}.
Context `{!Pickle, !Hashlib, !Program heap}.
Implicit Types (s : state heap) (o : memoize) (k tier : string) (b : bytes).
Implicit Types (args : list value) (kwargs : kwdict).

Ltac unfold_monad :=
  unfold bind, ret, raise, lift, get_self, modify_self, get_fs, update_fs in *.

(** *** Key derivation runs without touching the state *)

Lemma _memkey_run args kwargs s :
  _key (self s) = None →
  _memkey args kwargs s = (derive_key (self s) args kwargs, s).
Proof.
  intros Hk. unfold _memkey, derive_key, key_input. rewrite Hk. unfold_monad.
  destruct (mapR memkey_arg args); [|done].
  destruct (getattr___name__ _); [|done].
  by destruct (pickle_dumps _).
Qed.

Lemma call_key_run args kwargs s :
  match _key (self s) with
  | None => _memkey args kwargs
  | Some k => ret k
  end s = (derive_key (self s) args kwargs, s).
Proof.
  destruct (_key (self s)) eqn:Hk.
  - unfold derive_key. by rewrite Hk.
  - by apply _memkey_run.
Qed.

(** *** The lookup *)

Lemma stored_exists o f k :
  _cache o !! k = None →
  _persistent o && os_path_exists f (os_path_join (_folder o) k)
  = bool_decide (is_Some (stored o f k)).
Proof.
  intros Hc. unfold stored, os_path_exists, os_path_join. rewrite Hc.
  destruct (_persistent o); simpl; [|done].
  destruct (f !! _folder o) as [[c|es]|]; try done.
  destruct (es !! k); by simpl.
Qed.

Lemma _read_cache_run k s :
  _read_cache k s =
  match stored (self s) (fs s) k with
  | Some (tier, b) =>
      (match pickle_loads b with Ok v => Ok (true, v) | Raise e => Raise e end,
       looked_up tier s)
  | None => (Ok (false, VNone), looked_up "function" s)
  end.
Proof.
  unfold _read_cache. unfold_monad.
  destruct (_cache (self s) !! k) as [b|] eqn:Hc.
  - unfold stored. rewrite Hc. unfold looked_up. by destruct (pickle_loads b).
  - rewrite (stored_exists _ _ _ Hc).
    unfold stored, read_file, os_path_join. rewrite Hc.
    destruct (_persistent (self s)); [|done].
    destruct (fs s !! _folder (self s)) as [[c|es]|]; try done.
    destruct (es !! k) as [b|]; [|done]. simpl.
    unfold looked_up. by destruct (pickle_loads b).
Qed.

Lemma report_run v k s tier :
  _latest_source (self s) = Some tier →
  report v k s = (Ok (reported (self s) v k tier), s).
Proof.
  intros Hs. unfold report, reported. unfold_monad. rewrite Hs.
  by destruct (_debug (self s)).
Qed.

(** *** Calls of user code: the wrapper and the file system are untouched *)

Lemma call_object_run ev c args kwargs s :
  call_object ev (VFun c) args kwargs s =
  (fst (apply c args kwargs (user s)),
   State (self s) (fs s) (snd (apply c args kwargs (user s))) (trace s ++ [ev c])).
Proof. unfold call_object. by destruct (apply _ _ _ _). Qed.

Lemma lazy_arg_run x s r s1 :
  lazy_arg x s = (r, s1) →
  self s1 = self s ∧ fs s1 = fs s ∧
  ∃ cs, trace s1 = trace s ++ map Forced cs ∧
        ∀ y, r = Ok y → resolves [x] (user s) [y] cs (user s1).
Proof.
  unfold lazy_arg. destruct (callable x) eqn:Hx.
  - destruct x; try done. rewrite call_object_run. intros [= <- <-]. simpl.
    repeat split; []. exists [c]. split; [done|]. intros y Hy.
    eapply resolves_force; [|constructor].
    rewrite <- Hy. by destruct (apply c [] [] (user s)).
  - intros [= <- <-]. repeat split; []. exists []. rewrite app_nil_r.
    split; [done|]. intros y [= <-]. apply resolves_plain; [done|constructor].
Qed.

Lemma resolves_app xs1 xs2 h ys1 cs1 h1 ys2 cs2 h2 :
  resolves xs1 h ys1 cs1 h1 →
  resolves xs2 h1 ys2 cs2 h2 →
  resolves (xs1 ++ xs2) h (ys1 ++ ys2) (cs1 ++ cs2) h2.
Proof. induction 1; intros; simpl; [done|econstructor; eauto..]. Qed.

Lemma mapM_lazy_arg xs s r s' :
  mapM lazy_arg xs s = (r, s') →
  self s' = self s ∧ fs s' = fs s ∧
  ∃ cs, trace s' = trace s ++ map Forced cs ∧
        ∀ ys, r = Ok ys → resolves xs (user s) ys cs (user s').
Proof.
  revert s r s'. induction xs as [|x xs IH]; intros s r s' Hrun; simpl in Hrun.
  - unfold ret in Hrun. injection Hrun as <- <-. repeat split; [].
    exists []. rewrite app_nil_r. split; [done|].
    intros ys [= <-]. constructor.
  - unfold bind at 1 in Hrun.
    destruct (lazy_arg x s) as [[y|e] s1] eqn:Hx;
      destruct (lazy_arg_run _ _ _ _ Hx) as (Hself1 & Hfs1 & cs1 & Htr1 & Hres1).
    + unfold bind at 1 in Hrun.
      destruct (mapM lazy_arg xs s1) as [[ys|e] s2] eqn:Hxs;
        destruct (IH _ _ _ Hxs) as (Hself2 & Hfs2 & cs2 & Htr2 & Hres2);
        unfold ret in Hrun; injection Hrun as <- <-;
        (repeat split; [congruence..|]); exists (cs1 ++ cs2);
        (split; [by rewrite Htr2, Htr1, map_app, app_assoc|]); [|done].
      intros ? [= <-].
      apply (resolves_app [x] xs _ [y] _ (user s1) ys); eauto.
    + injection Hrun as <- <-. repeat split; [done..|].
      exists cs1. split; [done|]. done.
Qed.

Lemma mapM_cons {A B} (f : A → M heap B) a l s :
  mapM f (a :: l) s =
  match f a s with
  | (Ok b, s1) =>
      match mapM f l s1 with
      | (Ok bs, s2) => (Ok (b :: bs), s2)
      | (Raise e, s2) => (Raise e, s2)
      end
  | (Raise e, s1) => (Raise e, s1)
  end.
Proof.
  simpl. unfold bind, ret. destruct (f a s) as [[b|e] s1]; [|done].
  by destruct (mapM f l s1) as [[bs|e] s2].
Qed.

Lemma mapM_lazy_kwargs kwargs s :
  mapM (λ kv, bind (lazy_arg (snd kv)) (λ val, ret (fst kv, val))) kwargs s =
  match mapM lazy_arg (kwargs.*2) s with
  | (Ok vs, s') => (Ok (zip (kwargs.*1) vs), s')
  | (Raise e, s') => (Raise e, s')
  end.
Proof.
  revert s. induction kwargs as [|[key val] kwargs IH]; intros s.
  { by unfold ret. }
  rewrite !fmap_cons, !mapM_cons. unfold bind at 1. simpl fst. simpl snd.
  destruct (lazy_arg val s) as [[y|e] s1]; [|done].
  unfold ret at 1. rewrite IH.
  by destruct (mapM lazy_arg (kwargs.*2) s1) as [[vs|e] s2].
Qed.

Lemma resolves_length xs h ys cs h' :
  resolves xs h ys cs h' → length ys = length xs.
Proof. induction 1; simpl; congruence. Qed.

Lemma _lazy_evaluation_run args kwargs s r s' :
  _lazy_evaluation args kwargs s = (r, s') →
  self s' = self s ∧ fs s' = fs s ∧
  ∃ cs, trace s' = trace s ++ map Forced cs ∧
        ∀ args' kwargs', r = Ok (args', kwargs') →
          ∃ cs1 cs2 h1,
            cs = cs1 ++ cs2 ∧
            resolves args (user s) args' cs1 h1 ∧
            resolves (kwargs.*2) h1 (kwargs'.*2) cs2 (user s') ∧
            kwargs'.*1 = kwargs.*1.
Proof.
  unfold _lazy_evaluation. unfold bind at 1.
  destruct (mapM lazy_arg args s) as [[ys|e] s1] eqn:Hargs.
  - destruct (mapM_lazy_arg _ _ _ _ Hargs) as (Hself1 & Hfs1 & cs1 & Htr1 & Hres1).
    unfold bind at 1. rewrite mapM_lazy_kwargs.
    destruct (mapM lazy_arg (kwargs.*2) s1) as [[vs|e] s2] eqn:Hkw;
      destruct (mapM_lazy_arg _ _ _ _ Hkw) as (Hself2 & Hfs2 & cs2 & Htr2 & Hres2);
      unfold ret; intros [= <- <-]; (repeat split; [congruence..|]);
      exists (cs1 ++ cs2); (split; [by rewrite Htr2, Htr1, map_app, app_assoc|]);
      [|done].
    intros ? ? [= <- <-]. exists cs1, cs2, (user s1).
    specialize (Hres1 _ eq_refl). specialize (Hres2 _ eq_refl).
    pose proof (resolves_length _ _ _ _ _ Hres2) as Hlen.
    rewrite !length_fmap in Hlen.
    rewrite snd_zip by (rewrite length_fmap; lia).
    rewrite fst_zip by (rewrite length_fmap; lia). done.
  - destruct (mapM_lazy_arg _ _ _ _ Hargs) as (Hself1 & Hfs1 & cs1 & Htr1 & _).
    intros [= <- <-]. repeat split; [done..|]. exists cs1. split; [done|]. done.
Qed.

(** *** Write-back *)

Lemma _write_cache_run k retval s :
  _write_cache k retval s =
  match pickle_dumps retval with
  | Raise e => (Raise e, s)
  | Ok b =>
      let s1 := with_self (set_cache (<[k := b]> (_cache (self s))) (self s)) s in
      let cache_path := os_path_join (_folder (self s)) k in
      if _persistent (self s) && negb (os_path_exists (fs s) cache_path) then
        match write_file (fs s) cache_path b with
        | Ok f => report retval k (with_fs f s1)
        | Raise e => (Raise e, s1)
        end
      else report retval k s1
  end.
Proof.
  unfold _write_cache. unfold_monad.
  destruct (pickle_dumps retval) as [b|e]; [|done]. simpl.
  destruct (_persistent (self s)); [|done]. simpl.
  destruct (fs s !! _folder (self s)) as [[c|es]|] eqn:Hf;
    simpl; rewrite ?Hf; try done.
  destruct (es !! k); simpl; by rewrite ?Hf.
Qed.

(** *** A call, by cases on the key and on the tiers *)

Lemma call_run args kwargs s :
  _call_without_arguments args kwargs s =
  match derive_key (self s) args kwargs with
  | Raise e => (Raise e, s)
  | Ok k =>
      match stored (self s) (fs s) k with
      | Some (tier, b) =>
          (match pickle_loads b with
           | Ok v => Ok (reported (self s) v k tier)
           | Raise e => Raise e
           end, looked_up tier s)
      | None =>
          match (if _lazy (self s) then _lazy_evaluation args kwargs
                 else ret (args, kwargs)) (looked_up "function" s) with
          | (Raise e, s1) => (Raise e, s1)
          | (Ok ak, s1) =>
              match call_object (λ c, Invoked c ak.1 ak.2) (_fnc (self s1))
                      ak.1 ak.2 s1 with
              | (Raise e, s2) => (Raise e, s2)
              | (Ok retval, s2) => _write_cache k retval s2
              end
          end
      end
  end.
Proof.
  unfold _call_without_arguments. unfold bind at 1. unfold get_self at 1.
  unfold bind at 1. rewrite call_key_run.
  destruct (derive_key (self s) args kwargs) as [k|e]; [|done].
  unfold bind at 1. rewrite _read_cache_run.
  destruct (stored (self s) (fs s) k) as [[tier b]|].
  - destruct (pickle_loads b) as [v|e]; [|done]. simpl.
    by rewrite (report_run _ _ _ tier).
  - simpl. unfold bind at 1. unfold get_self at 1. unfold bind at 1.
    simpl. destruct (_ (looked_up "function" s)) as [[ak|e] s1]; [|done].
    unfold bind at 1. unfold get_self at 1. unfold bind at 1. done.
Qed.

Lemma passes_run args kwargs s r s1 :
  (if _lazy (self s) then _lazy_evaluation args kwargs else ret (args, kwargs)) s
  = (r, s1) →
  self s1 = self s ∧ fs s1 = fs s ∧
  ∃ cs, trace s1 = trace s ++ map Forced cs ∧
        ∀ args' kwargs', r = Ok (args', kwargs') →
          passes (self s) args kwargs (user s) args' kwargs' cs (user s1).
Proof.
  unfold passes. destruct (_lazy (self s)).
  - apply _lazy_evaluation_run.
  - intros [= <- <-]. repeat split; []. exists []. rewrite app_nil_r.
    split; [done|]. by intros ? ? [= <- <-].
Qed.

Lemma call_hit args kwargs s k tier b v :
  derive_key (self s) args kwargs = Ok k →
  stored (self s) (fs s) k = Some (tier, b) →
  pickle_loads b = Ok v →
  _call_without_arguments args kwargs s
  = (Ok (reported (self s) v k tier), looked_up tier s).
Proof. intros Hk Hst Hv. by rewrite call_run, Hk, Hst, Hv. Qed.

Lemma call_miss args kwargs s k v s' :
  derive_key (self s) args kwargs = Ok k →
  stored (self s) (fs s) k = None →
  _call_without_arguments args kwargs s = (Ok v, s') →
  ∃ c args' kwargs' cs h1 retval b,
    _fnc (self s) = VFun c ∧
    passes (self s) args kwargs (user s) args' kwargs' cs h1 ∧
    apply c args' kwargs' h1 = (Ok retval, user s') ∧
    trace s' = trace s ++ map Forced cs ++ [Invoked c args' kwargs'] ∧
    pickle_dumps retval = Ok b ∧
    self s' = set_cache (<[k := b]> (_cache (self s)))
                (set_latest_source "function" (self s)) ∧
    (if _persistent (self s)
     then ∃ es, fs s !! _folder (self s) = Some (Dir es) ∧ es !! k = None ∧
                fs s' = <[_folder (self s) := Dir (<[k := b]> es)]> (fs s)
     else fs s' = fs s) ∧
    v = reported (self s) retval k "function".
Proof.
  intros Hk Hst. rewrite call_run, Hk, Hst.
  change (_lazy (self s)) with (_lazy (self (looked_up "function" s))).
  destruct (_ (looked_up "function" s)) as [[[args' kwargs']|e] s1] eqn:Hpass;
    [|done].
  destruct (passes_run _ _ _ _ _ Hpass) as (Hself1 & Hfs1 & cs & Htr1 & Hres).
  specialize (Hres _ _ eq_refl). simpl in Hself1, Hfs1, Htr1, Hres. simpl fst. simpl snd.
  rewrite Hself1. simpl _fnc.
  destruct (_fnc (self s)) as [| | | | | | |c] eqn:Hfnc; try done.
  rewrite call_object_run.
  destruct (apply c args' kwargs' (user s1)) as [[retval|e] h2] eqn:Happ; [|done].
  simpl fst. simpl snd. cbv iota. rewrite _write_cache_run.
  destruct (pickle_dumps retval) as [b|e] eqn:Hb; [|done].
  cbv zeta. simpl self. simpl fs. rewrite Hself1, Hfs1. simpl _persistent. simpl _folder.
  simpl _cache.
  assert (_cache (self s) !! k = None) as Hc.
  { unfold stored in Hst. by destruct (_cache (self s) !! k). }
  pose proof (stored_exists _ (fs s) _ Hc) as Hex. rewrite Hst in Hex.
  destruct (_persistent (self s)) eqn:Hp; simpl in Hex; simpl andb.
  - rewrite Hex. simpl negb. cbv iota.
    unfold write_file, os_path_join. unfold stored in Hst. rewrite Hc, Hp in Hst.
    destruct (fs s !! _folder (self s)) as [[c'|es]|] eqn:Hf; try done.
    rewrite (report_run _ _ _ "function") by done.
    intros [= <- <-]. simpl.
    exists c, args', kwargs', cs, (user s1), retval, b.
    repeat split; try done.
    + by rewrite Htr1, <- app_assoc.
    + exists es. repeat split. by destruct (es !! k).
  - rewrite (report_run _ _ _ "function") by done.
    intros [= <- <-]. simpl.
    exists c, args', kwargs', cs, (user s1), retval, b.
    repeat split; try done.
    by rewrite Htr1, <- app_assoc.
Qed.

(** *** Calls only add entries *)

Lemma report_state v k s : snd (report v k s) = s.
Proof.
  unfold report. unfold_monad. destruct (_debug (self s)); [|done].
  by destruct (_latest_source (self s)).
Qed.

Lemma stored_insert o f k0 b k :
  k0 ≠ k →
  stored (set_cache (<[k0 := b]> (_cache o)) o) f k = stored o f k.
Proof. intros Hne. unfold stored. simpl. by rewrite lookup_insert_ne. Qed.

Lemma stored_write o f k0 b es k :
  k0 ≠ k →
  f !! _folder o = Some (Dir es) →
  stored o (<[_folder o := Dir (<[k0 := b]> es)]> f) k = stored o f k.
Proof.
  intros Hne Hf. unfold stored. rewrite lookup_insert_eq, Hf.
  by rewrite lookup_insert_ne.
Qed.

Lemma _write_cache_preserves k0 retval s :
  stored (self s) (fs s) k0 = None →
  let s' := snd (_write_cache k0 retval s) in
  config (self s') = config (self s) ∧
  ∀ k x, stored (self s) (fs s) k = Some x → stored (self s') (fs s') k = Some x.
Proof.
  intros Hk0. rewrite _write_cache_run.
  destruct (pickle_dumps retval) as [b|e]; [|done]. cbv zeta.
  destruct (_persistent (self s) && negb _) eqn:Hw.
  - unfold write_file, os_path_join.
    destruct (fs s !! _folder (self s)) as [[c|es]|] eqn:Hf; simpl;
      try (split; [done|]; intros k x Hk;
           rewrite stored_insert; [done|congruence]).
    rewrite report_state. simpl. split; [done|]. intros k x Hk.
    assert (k0 ≠ k) as Hne by congruence.
    rewrite <- Hk, <- (stored_insert _ (fs s) k0 b k Hne).
    by apply (stored_write (set_cache _ _)).
  - rewrite report_state. simpl. split; [done|].
    intros k x Hk. rewrite stored_insert; [done|congruence].
Qed.

Lemma call_preserves args kwargs s :
  let s' := snd (_call_without_arguments args kwargs s) in
  config (self s') = config (self s) ∧
  ∀ k x, stored (self s) (fs s) k = Some x → stored (self s') (fs s') k = Some x.
Proof.
  rewrite call_run.
  destruct (derive_key (self s) args kwargs) as [k0|e]; [|done].
  destruct (stored (self s) (fs s) k0) as [[tier b]|] eqn:Hk0; [done|].
  change (_lazy (self s)) with (_lazy (self (looked_up "function" s))).
  destruct (_ (looked_up "function" s)) as [[ak|e] s1] eqn:Hpass;
    destruct (passes_run _ _ _ _ _ Hpass) as (Hself1 & Hfs1 & _);
    simpl in Hself1, Hfs1.
  2:{ simpl. by rewrite Hself1, Hfs1. }
  assert (stored (self s1) (fs s1) k0 = None) as H1 by by rewrite Hself1, Hfs1.
  assert (config (self s1) = config (self s) ∧
          ∀ k x, stored (self s) (fs s) k = Some x →
                 stored (self s1) (fs s1) k = Some x) as [Hcfg1 Hst1]
    by by rewrite Hself1, Hfs1.
  destruct (_fnc (self s1)) as [| | | | | | |c]; try done.
  rewrite call_object_run.
  destruct (apply c ak.1 ak.2 (user s1)) as [[retval|e] h2]; [|done].
  simpl fst. simpl snd. cbv iota.
  match goal with |- context [_write_cache k0 retval ?s2] =>
    destruct (_write_cache_preserves k0 retval s2 H1) as [Hcfg2 Hst2] end.
  split; [by rewrite Hcfg2|]. intros k x Hk. by apply Hst2, Hst1.
Qed.

Lemma derive_key_ext o o' args kwargs :
  _fnc o' = _fnc o → _key o' = _key o →
  derive_key o' args kwargs = derive_key o args kwargs.
Proof. unfold derive_key, key_input. by intros -> ->. Qed.

Lemma config_derive_key o o' args kwargs :
  config o' = config o → derive_key o' args kwargs = derive_key o args kwargs.
Proof. unfold config. intros [= ? ? _ _ _ _]. by apply derive_key_ext. Qed.

Lemma config_reported o o' v k tier :
  config o' = config o → reported o' v k tier = reported o v k tier.
Proof. unfold config, reported. by intros [= _ _ _ _ -> _]. Qed.

Lemma calls_preserve s s' :
  rtc call_step s s' →
  config (self s') = config (self s) ∧
  ∀ k x, stored (self s) (fs s) k = Some x → stored (self s') (fs s') k = Some x.
Proof.
  induction 1 as [s|s s1 s2 (args & kwargs & ->) _ [IHc IHs]]; [done|].
  destruct (call_preserves args kwargs s) as [Hc Hs].
  split; [by rewrite IHc|]. intros k x Hk. by apply IHs, Hs.
Qed.

(** *** What a call that returns leaves behind *)

Lemma stored_tier o f k tier b :
  stored o f k = Some (tier, b) → tier = "memory" ∨ tier = "disk".
Proof.
  unfold stored. destruct (_cache o !! k); [intros [= <- _]; by left|].
  destruct (_persistent o); [|done].
  destruct (f !! _folder o) as [[c|es]|]; try done.
  destruct (es !! k); [intros [= <- _]; by right|done].
Qed.

Lemma invocations_app t1 t2 :
  invocations (t1 ++ t2) = invocations t1 + invocations t2.
Proof. unfold invocations. by rewrite filter_app, length_app. Qed.

Lemma invocations_Forced cs : invocations (map Forced cs) = 0.
Proof.
  induction cs as [|c cs IH]; [done|]. unfold invocations in *. simpl.
  by rewrite filter_cons_False by by intros [].
Qed.

Lemma call_ok args kwargs s v s1 :
  _call_without_arguments args kwargs s = (Ok v, s1) →
  ∃ k r tier,
    derive_key (self s) args kwargs = Ok k ∧
    v = reported (self s) r k tier ∧
    ((∃ b, stored (self s) (fs s) k = Some (tier, b) ∧ pickle_loads b = Ok r ∧
           s1 = looked_up tier s)
     ∨ (stored (self s) (fs s) k = None ∧ tier = "function" ∧
        invocations (trace s1) = S (invocations (trace s)) ∧
        ∃ b, pickle_dumps r = Ok b ∧
             stored (self s1) (fs s1) k = Some ("memory", b))).
Proof.
  intros Hcall.
  destruct (derive_key (self s) args kwargs) as [k|e] eqn:Hk;
    [|by rewrite call_run, Hk in Hcall].
  destruct (stored (self s) (fs s) k) as [[tier b]|] eqn:Hst.
  - rewrite call_run, Hk, Hst in Hcall.
    destruct (pickle_loads b) as [r|e] eqn:Hr; [|done].
    injection Hcall as <- <-. exists k, r, tier. repeat split. left. by exists b.
  - destruct (call_miss _ _ _ _ _ _ Hk Hst Hcall)
      as (c & args' & kwargs' & cs & h1 & r & b & _ & _ & _ & Htr & Hb & Hself & _ & ->).
    exists k, r, "function". repeat split. right.
    split; [done|]. split; [done|]. split.
    + rewrite Htr, !invocations_app, invocations_Forced. simpl.
      unfold invocations at 2. simpl. lia.
    + exists b. split; [done|]. rewrite Hself. unfold stored. simpl.
      by rewrite lookup_insert_eq.
Qed.

Lemma later_hit args kwargs s v s1 :
  _call_without_arguments args kwargs s = (Ok v, s1) →
  ∃ k r tier,
    derive_key (self s) args kwargs = Ok k ∧
    v = reported (self s) r k tier ∧
    invocations (trace s1) ≤ S (invocations (trace s)) ∧
    (stored (self s) (fs s) k = None →
     tier = "function" ∧ invocations (trace s1) = S (invocations (trace s))) ∧
    ((∀ b, pickle_dumps r = Ok b → pickle_loads b = Ok r) →
     ∀ s2, rtc call_step s1 s2 →
     ∀ args2 kwargs2, derive_key (self s) args2 kwargs2 = Ok k →
       ∃ tier', (tier' = "memory" ∨ tier' = "disk") ∧
         _call_without_arguments args2 kwargs2 s2
         = (Ok (reported (self s) r k tier'), looked_up tier' s2)).
Proof.
  intros Hcall. destruct (call_ok _ _ _ _ _ Hcall) as (k & r & tier & Hk & -> & Hcase).
  exists k, r, tier. split; [done|]. split; [done|].
  assert (config (self s1) = config (self s)) as Hcfg1.
  { pose proof (call_preserves args kwargs s) as [Hc _]. by rewrite Hcall in Hc. }
  assert (invocations (trace s1) ≤ S (invocations (trace s)) ∧
          (stored (self s) (fs s) k = None →
           tier = "function" ∧ invocations (trace s1) = S (invocations (trace s))) ∧
          ((∀ b, pickle_dumps r = Ok b → pickle_loads b = Ok r) →
           ∃ tier1 b, stored (self s1) (fs s1) k = Some (tier1, b) ∧
                      pickle_loads b = Ok r)) as (Hle & Hmiss & Hnow).
  { destruct Hcase as [(b & Hst & Hr & ->)|(Hst & -> & Hinv & b & Hb & Hst1)].
    - simpl. split; [lia|]. split; [by rewrite Hst|]. intros _. by exists tier, b.
    - split; [lia|]. split; [done|]. intros Hrt. exists "memory", b. auto. }
  split; [done|]. split; [done|].
  intros Hrt s2 Hsteps args2 kwargs2 Hk2.
  destruct (Hnow Hrt) as (tier1 & b & Hst1 & Hr).
  destruct (calls_preserve _ _ Hsteps) as [Hcfg2 Hst2].
  exists tier1. split; [by eapply stored_tier|].
  assert (config (self s2) = config (self s)) as Hcfg by by rewrite Hcfg2.
  rewrite <- (config_reported (self s) (self s2)) by done.
  apply call_hit with b; [|by apply Hst2|done].
  rewrite <- Hk2. by apply config_derive_key.
Qed.



(** C8: calls that share a key share the entry.  With an explicit key every
    call has that key; and once a call has returned, a call with other
    arguments but the same key returns the first call's value [r], raises
    nothing and does not invoke the wrapped function. *)
Theorem key_collision args1 kwargs1 args2 kwargs2 s v s1 :
  _call_without_arguments args1 kwargs1 s = (Ok v, s1) →
  (is_Some (_key (self s)) →
   derive_key (self s) args2 kwargs2 = derive_key (self s) args1 kwargs1) ∧
  (derive_key (self s) args2 kwargs2 = derive_key (self s) args1 kwargs1 →
   ∃ k r tier,
     v = reported (self s) r k tier ∧
     ((∀ b, pickle_dumps r = Ok b → pickle_loads b = Ok r) →
      ∀ s2, rtc call_step s1 s2 →
        ∃ tier', (tier' = "memory" ∨ tier' = "disk") ∧
          _call_without_arguments args2 kwargs2 s2
          = (Ok (reported (self s) r k tier'), looked_up tier' s2))).
Proof.
  intros Hcall. split.
  { intros [k Hk]. unfold derive_key. by rewrite Hk. }
  intros Hsame.
  destruct (later_hit _ _ _ _ _ Hcall) as (k & r & tier & Hk & Hv & _ & _ & Hlater).
  exists k, r, tier. split; [done|].
  intros Hrt s2 Hsteps. apply Hlater; [done..|]. by rewrite Hsame.
Qed.

(** *** The disk tier *)

Lemma stored_disk o f k b :
  _cache o !! k = None →
  _persistent o = true →
  read_file f (os_path_join (_folder o) k) = Ok b →
  stored o f k = Some ("disk", b).
Proof.
  intros Hc Hp. unfold stored, read_file, os_path_join. rewrite Hc, Hp.
  destruct (f !! _folder o) as [[c|es]|]; try done.
  destruct (es !! k); [by intros [= ->]|done].
Qed.


Lemma __init___run fnc key persistent lazy debug folder s :
  __init__ fnc key persistent lazy debug folder s =
  (Ok (),
   State (Memoize fnc key persistent lazy debug folder ∅ None)
     (if persistent && negb (os_path_exists (fs s) (Name folder))
      then <[folder := Dir ∅]> (fs s) else fs s)
     (user s) (trace s)).
Proof.
  unfold __init__, _init_cache, os_mkdir, os_path_exists. unfold_monad. simpl.
  destruct persistent; [|done]. simpl.
  destruct (fs s !! folder) eqn:Hf; simpl; by rewrite ?Hf.
Qed.

(** C10: when the disk tier satisfies the lookup of a call, the call returns
    the value loaded from the key's file and changes nothing but the recorded
    tier; so after any number [n] of such calls the key is still absent from
    the in-memory mapping, and the next call reads the file again and reports
    the tier as disk. *)
Theorem disk_hit_not_promoted args kwargs s k b v :
  derive_key (self s) args kwargs = Ok k →
  _cache (self s) !! k = None →
  _persistent (self s) = true →
  read_file (fs s) (os_path_join (_folder (self s)) k) = Ok b →
  pickle_loads b = Ok v →
  ∀ n, let sn := Nat.iter n (λ s, snd (_call_without_arguments args kwargs s)) s in
    _cache (self sn) = _cache (self s) ∧
    _cache (self sn) !! k = None ∧
    _call_without_arguments args kwargs sn
    = (Ok (reported (self s) v k "disk"), looked_up "disk" s).
Proof.
  intros Hk Hc Hp Hread Hv n.
  pose proof (stored_disk _ _ _ _ Hc Hp Hread) as Hst.
  assert (_call_without_arguments args kwargs (looked_up "disk" s)
          = (Ok (reported (self s) v k "disk"), looked_up "disk" s)) as Hagain.
  { by apply (call_hit _ _ (looked_up "disk" s) k "disk" b v). }
  assert (Nat.iter n (λ s, snd (_call_without_arguments args kwargs s)) s = s ∨
          Nat.iter n (λ s, snd (_call_without_arguments args kwargs s)) s
          = looked_up "disk" s) as [->| ->].
  { induction n as [|n [IH|IH]]; [by left|right; simpl; rewrite IH..].
    - by rewrite (call_hit _ _ _ _ _ _ _ Hk Hst Hv).
    - by rewrite Hagain. }
  - repeat split; [done|]. by apply call_hit with b.
  - by repeat split.
Qed.



(** *** Clearing *)

Lemma clear_run s :
  clear s =
  if _persistent (self s) then
    match fs s !! _folder (self s) with
    | Some (File _) => (Raise NotADirectoryError, s)
    | _ => (Ok (), State (set_cache ∅ (self s))
                     (<[_folder (self s) := Dir ∅]> (fs s)) (user s) (trace s))
    end
  else (Ok (), with_self (set_cache ∅ (self s)) s).
Proof.
  unfold clear, _init_cache, shutil_rmtree, os_mkdir, os_path_exists.
  unfold_monad.
  destruct (_persistent (self s)) eqn:Hp; simpl; rewrite ?Hp; simpl; [|done].
  destruct (fs s !! _folder (self s)) as [[c|es]|] eqn:Hf; simpl;
    rewrite ?Hp, ?Hf; simpl; rewrite ?Hp, ?Hf; try done.
  rewrite lookup_delete_eq. simpl. rewrite lookup_delete_eq.
  unfold with_fs, with_self. simpl. by rewrite insert_delete_eq.
Qed.


(** *** Lazy evaluation *)

Lemma resolves_callables xs h ys cs h' :
  resolves xs h ys cs h' → cs = callables_of xs.
Proof.
  induction 1 as [|x ? ? ? ? ? Hx _ IH|]; simpl; [done| |by f_equal].
  unfold callables_of in *. simpl. by destruct x.
Qed.

Lemma resolves_plain_same xs h ys cs h' :
  resolves xs h ys cs h' →
  Forall2 (λ x y, callable x = false → y = x) xs ys.
Proof. induction 1; constructor; done. Qed.

(** C9: with lazy evaluation on, a call that misses and returns has forced
    each callable among the positional arguments and then among the keyword
    arguments, once each and in order, with no arguments; the wrapped
    function has received their return values in their places, and the other
    arguments as they were.  A call that hits forces nothing: neither the log
    of calls nor the user's state changes. *)
Theorem lazy_resolution args kwargs s k :
  _lazy (self s) = true →
  derive_key (self s) args kwargs = Ok k →
  (stored (self s) (fs s) k = None →
   ∀ v s', _call_without_arguments args kwargs s = (Ok v, s') →
     ∃ c args' kwargs' h1 h2 retval,
       _fnc (self s) = VFun c ∧
       resolves args (user s) args' (callables_of args) h1 ∧
       resolves (kwargs.*2) h1 (kwargs'.*2) (callables_of (kwargs.*2)) h2 ∧
       kwargs'.*1 = kwargs.*1 ∧
       Forall2 (λ x y, callable x = false → y = x) args args' ∧
       Forall2 (λ x y, callable x = false → y = x) (kwargs.*2) (kwargs'.*2) ∧
       apply c args' kwargs' h2 = (Ok retval, user s') ∧
       trace s' = trace s
                  ++ map Forced (callables_of args ++ callables_of (kwargs.*2))
                  ++ [Invoked c args' kwargs'] ∧
       v = reported (self s) retval k "function") ∧
  (∀ tier b, stored (self s) (fs s) k = Some (tier, b) →
     let s' := snd (_call_without_arguments args kwargs s) in
     trace s' = trace s ∧ user s' = user s).
Proof.
  intros Hlazy Hk. split.
  - intros Hst v s' Hcall.
    destruct (call_miss _ _ _ _ _ _ Hk Hst Hcall)
      as (c & args' & kwargs' & cs & h2 & r & b & Hfnc & Hpass & Happ & Htr & _ & _ & _ & Hv).
    unfold passes in Hpass. rewrite Hlazy in Hpass.
    destruct Hpass as (cs1 & cs2 & h1 & -> & Hargs & Hkw & Hkeys).
    pose proof (resolves_callables _ _ _ _ _ Hargs) as ->.
    pose proof (resolves_callables _ _ _ _ _ Hkw) as ->.
    exists c, args', kwargs', h1, h2, r.
    repeat split; try done; by eapply resolves_plain_same.
  - intros tier b Hst. rewrite call_run, Hk, Hst. by destruct (pickle_loads b).
Qed.

(** *** Decorator with arguments *)

Lemma new_memoize_run fnc key persistent lazy debug folder s :
  new_memoize fnc key persistent lazy debug folder s =
  (Ok (Memoize fnc key persistent lazy debug folder ∅ None),
   with_fs (if persistent && negb (os_path_exists (fs s) (Name folder))
            then <[folder := Dir ∅]> (fs s) else fs s) s).
Proof.
  unfold new_memoize, run_on. unfold bind at 1. rewrite __init___run.
  unfold ret. by destruct s.
Qed.

(** C7: a wrapper built without a function and then called with [fnc] as its
    only argument returns a new wrapper, which is the very wrapper that the
    constructor builds from [fnc] and the same options: same function, key,
    flags and folder, and an empty cache; the file system ends up the same on
    both routes. *)
Theorem decorator_with_arguments key persistent lazy debug folder fnc s :
  ∃ w0 s0 w,
    new_memoize VNone key persistent lazy debug folder s = (Ok w0, s0) ∧
    __call__ [fnc] [] (with_self w0 s0) = (Ok (Wrapper w), with_self w0 s0) ∧
    new_memoize fnc key persistent lazy debug folder s = (Ok w, s0) ∧
    config w = (fnc, key, persistent, lazy, debug, folder).
Proof.
  set (f0 := if persistent && negb (os_path_exists (fs s) (Name folder))
             then <[folder := Dir ∅]> (fs s) else fs s).
  exists (Memoize VNone key persistent lazy debug folder ∅ None), (with_fs f0 s),
    (Memoize fnc key persistent lazy debug folder ∅ None).
  rewrite !new_memoize_run. split; [done|]. split; [|done].
  unfold __call__, _call_with_arguments. unfold bind at 1. unfold get_self at 1.
  cbn [self with_self _fnc is_None]. unfold bind at 1 2. unfold get_self at 1.
  cbn [self with_self _fnc _key _persistent _lazy _debug _folder].
  rewrite new_memoize_run. unfold ret. cbn [fs with_fs with_self].
  assert ((if persistent && negb (os_path_exists f0 (Name folder))
           then <[folder := Dir ∅]> f0 else f0) = f0) as ->; [|done].
  unfold f0, os_path_exists. destruct persistent; simpl; [|done].
  destruct (fs s !! folder) eqn:Hf; simpl; [by rewrite Hf|].
  by rewrite lookup_insert_eq.
Qed.

(** *** Key derivation *)

Lemma memkey_arg_sentinel c :
  "__name" ∉ co_dict c → memkey_arg (VFun c) = Ok (VStr "__nameless__").
Proof.
  intros Hc. unfold memkey_arg, hasattr. simpl.
  by rewrite bool_decide_eq_false_2.
Qed.

(** Whatever the serializer and the digest, two callables in the same
    position give the same key. *)
Lemma callables_share_key o c1 c2 args kwargs :
  "__name" ∉ co_dict c1 → "__name" ∉ co_dict c2 →
  derive_key o (VFun c1 :: args) kwargs = derive_key o (VFun c2 :: args) kwargs.
Proof.
  intros H1 H2. unfold derive_key, key_input. simpl.
  by rewrite !memkey_arg_sentinel.
Qed.


(** ** Further properties of the methods *)

(** *** What a call stores *)

Lemma call_store args kwargs s r s' :
  _call_without_arguments args kwargs s = (r, s') →
  (fs s' = fs s ∧ _cache (self s') = _cache (self s)) ∨
  ∃ k retval b,
    derive_key (self s) args kwargs = Ok k ∧
    stored (self s) (fs s) k = None ∧
    pickle_dumps retval = Ok b ∧
    _cache (self s') = <[k := b]> (_cache (self s)) ∧
    ((_persistent (self s) = false ∧ fs s' = fs s ∧
      r = Ok (reported (self s) retval k "function"))
     ∨ (_persistent (self s) = true ∧
        ∃ es, fs s !! _folder (self s) = Some (Dir es) ∧ es !! k = None ∧
              fs s' = <[_folder (self s) := Dir (<[k := b]> es)]> (fs s) ∧
              r = Ok (reported (self s) retval k "function"))
     ∨ (_persistent (self s) = true ∧ fs s' = fs s ∧
        ∃ e, r = Raise e ∧
             write_file (fs s) (os_path_join (_folder (self s)) k) b = Raise e)).
Proof.
  rewrite call_run.
  destruct (derive_key (self s) args kwargs) as [k|e] eqn:Hk;
    [|intros [= <- <-]; by left].
  destruct (stored (self s) (fs s) k) as [[tier b]|] eqn:Hst;
    [intros [= <- <-]; by left|].
  change (_lazy (self s)) with (_lazy (self (looked_up "function" s))).
  destruct (_ (looked_up "function" s)) as [[ak|e] s1] eqn:Hpass;
    destruct (passes_run _ _ _ _ _ Hpass) as (Hself1 & Hfs1 & _);
    simpl in Hself1, Hfs1.
  2:{ intros [= <- <-]. left. by rewrite Hself1, Hfs1. }
  rewrite Hself1. change (_fnc (set_latest_source "function" (self s)))
    with (_fnc (self s)).
  destruct (_fnc (self s)) as [| | | | | | |c];
    try (intros [= <- <-]; left; by rewrite Hself1, Hfs1).
  rewrite call_object_run.
  destruct (apply c ak.1 ak.2 (user s1)) as [[retval|e] h2]; cbn [fst snd];
    [|intros [= <- <-]; left; simpl; by rewrite Hself1, Hfs1].
  rewrite _write_cache_run.
  destruct (pickle_dumps retval) as [b|e] eqn:Hb;
    [|intros [= <- <-]; left; simpl; by rewrite Hself1, Hfs1].
  cbv zeta. cbn [self fs]. rewrite Hself1, Hfs1.
  change (_persistent (set_latest_source "function" (self s)))
    with (_persistent (self s)).
  change (_folder (set_latest_source "function" (self s)))
    with (_folder (self s)).
  assert (_cache (self s) !! k = None) as Hc.
  { unfold stored in Hst. by destruct (_cache (self s) !! k). }
  pose proof (stored_exists _ (fs s) _ Hc) as Hex. rewrite Hst in Hex.
  intros Hrun. right. exists k, retval, b. do 3 (split; [done|]).
  destruct (_persistent (self s)) eqn:Hp; cbn [andb] in Hex, Hrun.
  - rewrite Hex, bool_decide_eq_false_2 in Hrun by by intros [? [=]].
    cbn [negb] in Hrun. revert Hrun.
    unfold write_file, os_path_join. unfold stored in Hst. rewrite Hc, Hp in Hst.
    destruct (fs s !! _folder (self s)) as [[c'|es]|] eqn:Hf.
    + intros [= <- <-]. split; [done|]. right. right. repeat split.
      by exists NotADirectoryError.
    + rewrite (report_run _ _ _ "function") by done. intros [= <- <-].
      split; [done|]. right. left. split; [done|]. exists es.
      repeat split. by destruct (es !! k).
    + intros [= <- <-]. split; [done|]. right. right. repeat split.
      by exists FileNotFoundError.
  - revert Hrun. rewrite (report_run _ _ _ "function") by done.
    intros [= <- <-]. split; [done|]. by left.
Qed.




(** *** What a call runs *)

Lemma _write_cache_user k retval s :
  let s' := snd (_write_cache k retval s) in
  trace s' = trace s ∧ user s' = user s.
Proof.
  rewrite _write_cache_run. destruct (pickle_dumps retval) as [b|e]; [|done].
  cbv zeta. destruct (_ && _); [destruct (write_file _ _ _)|];
    rewrite ?report_state; done.
Qed.

Lemma miss_invokes args kwargs s k c :
  derive_key (self s) args kwargs = Ok k →
  stored (self s) (fs s) k = None →
  _lazy (self s) = false →
  _fnc (self s) = VFun c →
  _call_without_arguments args kwargs s =
  match apply c args kwargs (user s) with
  | (Ok retval, h) =>
      _write_cache k retval
        (State (set_latest_source "function" (self s)) (fs s) h
           (trace s ++ [Invoked c args kwargs]))
  | (Raise e, h) =>
      (Raise e, State (set_latest_source "function" (self s)) (fs s) h
                  (trace s ++ [Invoked c args kwargs]))
  end.
Proof.
  intros Hk Hst Hlazy Hfnc. rewrite call_run, Hk, Hst, Hlazy. unfold ret.
  cbn [fst snd]. change (_fnc (self (looked_up "function" s))) with (_fnc (self s)).
  rewrite Hfnc, call_object_run. cbn [fst snd self fs user trace looked_up with_self].
  by destruct (apply c args kwargs (user s)) as [[retval|e] h].
Qed.

(** X3: a call runs the wrapped function at most once, whatever its outcome;
    a call whose key is in either tier runs no user code at all (neither the
    log of calls nor the user's state changes); and with lazy evaluation off
    a call forces nothing: it either logs nothing, or logs one call of the
    wrapped function with the arguments as they were given. *)
Theorem call_invokes_at_most_once args kwargs s :
  let s' := snd (_call_without_arguments args kwargs s) in
  invocations (trace s') ≤ S (invocations (trace s)) ∧
  (∀ k x, derive_key (self s) args kwargs = Ok k →
          stored (self s) (fs s) k = Some x →
          trace s' = trace s ∧ user s' = user s) ∧
  (_lazy (self s) = false →
   trace s' = trace s ∨
   ∃ c, _fnc (self s) = VFun c ∧ trace s' = trace s ++ [Invoked c args kwargs]).
Proof.
  cbv zeta. split; [|split].
  - rewrite call_run.
    destruct (derive_key (self s) args kwargs) as [k|e]; [|simpl; lia].
    destruct (stored (self s) (fs s) k) as [[tier b]|]; [simpl; lia|].
    change (_lazy (self s)) with (_lazy (self (looked_up "function" s))).
    destruct (_ (looked_up "function" s)) as [[ak|e] s1] eqn:Hpass;
      destruct (passes_run _ _ _ _ _ Hpass) as (_ & _ & cs & Htr & _);
      simpl in Htr.
    2:{ cbn [snd]. rewrite Htr, invocations_app, invocations_Forced. lia. }
    destruct (_fnc (self s1)) as [| | | | | | |c];
      try (unfold call_object, raise; cbn [snd];
           rewrite Htr, invocations_app, invocations_Forced; lia).
    rewrite call_object_run.
    destruct (apply c ak.1 ak.2 (user s1)) as [[retval|e] h2]; cbn [fst snd].
    + match goal with |- context [_write_cache k retval ?s2] =>
        destruct (_write_cache_user k retval s2) as [-> _] end.
      cbn [trace]. rewrite Htr, !invocations_app, invocations_Forced.
      unfold invocations at 2. simpl. lia.
    + cbn [trace]. rewrite Htr, !invocations_app, invocations_Forced.
      unfold invocations at 2. simpl. lia.
  - intros k [tier b] Hk Hst. rewrite call_run, Hk, Hst. by destruct (pickle_loads b).
  - intros Hlazy.
    destruct (derive_key (self s) args kwargs) as [k|e] eqn:Hk;
      [|left; by rewrite call_run, Hk].
    destruct (stored (self s) (fs s) k) as [[tier b]|] eqn:Hst;
      [left; rewrite call_run, Hk, Hst; by destruct (pickle_loads b)|].
    destruct (_fnc (self s)) as [| | | | | | |c] eqn:Hfnc;
      try (left; rewrite call_run, Hk, Hst, Hlazy; unfold ret; cbn [fst snd];
           change (_fnc (self (looked_up "function" s))) with (_fnc (self s));
           by rewrite Hfnc).
    right. exists c. split; [done|].
    rewrite (miss_invokes _ _ _ _ _ Hk Hst Hlazy Hfnc).
    destruct (apply c args kwargs (user s)) as [[retval|e] h]; [|done].
    match goal with |- context [_write_cache k retval ?s2] =>
      by destruct (_write_cache_user k retval s2) as [-> _] end.
Qed.

(** X4: an exception of the wrapped function is not cached.  When the
    function raises on a miss (lazy evaluation off), the call raises the
    same exception, having logged the call and kept what the function did
    to the user's state; nothing is stored in either tier, so the same call
    made again invokes the function again. *)
Theorem exception_not_cached args kwargs s k c e h :
  derive_key (self s) args kwargs = Ok k →
  stored (self s) (fs s) k = None →
  _lazy (self s) = false →
  _fnc (self s) = VFun c →
  apply c args kwargs (user s) = (Raise e, h) →
  ∃ s',
    _call_without_arguments args kwargs s = (Raise e, s') ∧
    fs s' = fs s ∧ _cache (self s') = _cache (self s) ∧
    user s' = h ∧ trace s' = trace s ++ [Invoked c args kwargs] ∧
    trace (snd (_call_without_arguments args kwargs s'))
    = trace s' ++ [Invoked c args kwargs].
Proof.
  intros Hk Hst Hlazy Hfnc Happ. eexists.
  rewrite (miss_invokes _ _ _ _ _ Hk Hst Hlazy Hfnc), Happ.
  split; [done|]. do 4 (split; [done|]).
  rewrite (miss_invokes _ _ _ k c); try done.
  cbn [user trace]. destruct (apply c args kwargs h) as [[retval|e'] h']; [|done].
  match goal with |- context [_write_cache k retval ?s2] =>
    by destruct (_write_cache_user k retval s2) as [-> _] end.
Qed.

(** X5: a failed file write keeps the entry in memory.  When a persistent
    wrapper has no storage directory (the folder is gone, or is a regular
    file), a call that misses invokes the function, puts the result in the
    in-memory mapping and then raises from the file write; the same call
    made again is answered from memory, without invoking the function. *)
Theorem write_failure_keeps_memory args kwargs s k c retval h b :
  derive_key (self s) args kwargs = Ok k →
  _cache (self s) !! k = None →
  _persistent (self s) = true →
  (∀ es, fs s !! _folder (self s) ≠ Some (Dir es)) →
  _lazy (self s) = false →
  _fnc (self s) = VFun c →
  apply c args kwargs (user s) = (Ok retval, h) →
  pickle_dumps retval = Ok b →
  pickle_loads b = Ok retval →
  ∃ e s',
    _call_without_arguments args kwargs s = (Raise e, s') ∧
    (e = FileNotFoundError ∨ e = NotADirectoryError) ∧
    fs s' = fs s ∧
    _cache (self s') = <[k := b]> (_cache (self s)) ∧
    _call_without_arguments args kwargs s'
    = (Ok (reported (self s) retval k "memory"), looked_up "memory" s').
Proof.
  intros Hk Hc Hp Hdir Hlazy Hfnc Happ Hb Hload.
  assert (stored (self s) (fs s) k = None) as Hst.
  { unfold stored. rewrite Hc, Hp.
    destruct (fs s !! _folder (self s)) as [[c'|es]|] eqn:Hf; try done.
    by destruct (Hdir es). }
  rewrite (miss_invokes _ _ _ _ _ Hk Hst Hlazy Hfnc), Happ.
  rewrite _write_cache_run, Hb. cbv zeta. cbn [self fs].
  change (_persistent (set_latest_source "function" (self s)))
    with (_persistent (self s)).
  change (_folder (set_latest_source "function" (self s)))
    with (_folder (self s)).
  rewrite Hp. unfold os_path_exists, write_file, os_path_join.
  destruct (fs s !! _folder (self s)) as [[c'|es]|] eqn:Hf;
    [| by destruct (Hdir es) |]; cbn [andb negb];
    eexists _, _; (split; [done|]); (split; [by auto|]);
    (split; [done|]); (split; [done|]);
    (rewrite (call_hit _ _ _ k "memory" b retval); [done|done| |done]);
    unfold stored; cbn [self _cache set_cache with_self]; by rewrite lookup_insert_eq.
Qed.

(** X6: an entry that cannot be unpickled is never repaired by a call.  When
    the lookup of a call finds an entry that [pickle.loads] rejects, the call
    raises that error, and so does every later call with the same arguments,
    whatever other calls come in between: the wrapped function is not invoked
    and the entry is left as it is. *)
Theorem corrupt_entry_poisons args kwargs s k tier b e :
  derive_key (self s) args kwargs = Ok k →
  stored (self s) (fs s) k = Some (tier, b) →
  pickle_loads b = Raise e →
  ∀ s2, rtc call_step s s2 →
    _call_without_arguments args kwargs s2 = (Raise e, looked_up tier s2).
Proof.
  intros Hk Hst Hload s2 Hsteps.
  destruct (calls_preserve _ _ Hsteps) as [Hcfg Hkeep].
  rewrite call_run, (config_derive_key (self s) (self s2)), Hk by done.
  by rewrite (Hkeep _ _ Hst), Hload.
Qed.

(** X7: without an explicit key the wrapped object needs a [__name__].  If
    it has none, every call raises before the lookup and leaves the state
    exactly as it was: nothing is run, looked up or stored. *)
Theorem no_name_no_key args kwargs s e0 :
  _key (self s) = None →
  getattr___name__ (_fnc (self s)) = Raise e0 →
  ∃ e, _call_without_arguments args kwargs s = (Raise e, s).
Proof.
  intros Hkey Hname. rewrite call_run. unfold derive_key, key_input.
  rewrite Hkey, Hname. destruct (mapR memkey_arg args); by eexists.
Qed.

(** *** Persistence and the file system *)

(** X8: a wrapper that is not persistent never changes the file system:
    neither a call nor [clear] does (and both leave the flag off, so no
    sequence of them does), [clear] cannot fail, and building such a wrapper
    creates nothing. *)
Theorem non_persistent_never_touches_disk s :
  _persistent (self s) = false →
  (∀ args kwargs,
     let s' := snd (_call_without_arguments args kwargs s) in
     fs s' = fs s ∧ _persistent (self s') = false) ∧
  (let s' := snd (clear s) in
   fst (clear s) = Ok () ∧ fs s' = fs s ∧ _persistent (self s') = false) ∧
  (∀ fnc key lazy debug folder,
     fs (snd (__init__ fnc key false lazy debug folder s)) = fs s).
Proof.
  intros Hp. repeat split.
  - destruct (_call_without_arguments args kwargs s) as [r s'] eqn:Hcall.
    destruct (call_store _ _ _ _ _ Hcall)
      as [[Hfs _]|(k & retval & b & _ & _ & _ & _ & Hcase)]; [done|].
    destruct Hcase as [(_ & Hfs & _)|[(Hp' & _)|(Hp' & _)]]; [done|congruence..].
  - pose proof (call_preserves args kwargs s) as [Hcfg _].
    unfold config in Hcfg. injection Hcfg as _ _ Hp' _ _ _. congruence.
  - by rewrite clear_run, Hp.
  - by rewrite clear_run, Hp.
  - by rewrite clear_run, Hp.
Qed.



(** *** Dispatch *)

Lemma __call___unbound args kwargs s :
  _fnc (self s) = VNone →
  let wrapped fnc :=
    (Ok (Wrapper (Memoize fnc (_key (self s)) (_persistent (self s))
                    (_lazy (self s)) (_debug (self s)) (_folder (self s))
                    ∅ None)),
     with_fs (if _persistent (self s)
                 && negb (os_path_exists (fs s) (Name (_folder (self s))))
              then <[_folder (self s) := Dir ∅]> (fs s) else fs s) s) in
  __call__ args kwargs s =
  match args, kwargs with
  | [fnc], [] => wrapped fnc
  | [], [(k, fnc)] =>
      if bool_decide (k = "fnc") then wrapped fnc else (Raise TypeError, s)
  | _, _ => (Raise TypeError, s)
  end.
Proof.
  intros Hfnc wrapped.
  assert (∀ fnc, bind (_call_with_arguments fnc) (λ w, ret (Wrapper w)) s
                 = wrapped fnc) as Hwrap.
  { intros fnc. unfold _call_with_arguments. unfold bind at 1 2.
    unfold get_self at 1. by rewrite new_memoize_run. }
  unfold __call__. unfold bind at 1. unfold get_self at 1. rewrite Hfnc.
  cbn [is_None].
  destruct args as [|a [|a' args]]; destruct kwargs as [|[key v] [|kv kwargs]];
    try done.
  by case_bool_decide.
Qed.

(** X11: calling a wrapper that has no function never runs or looks up
    anything.  With exactly one argument, positional or named [fnc], it
    returns a wrapper around that argument, callable or not, with the
    options of the receiver and an empty in-memory mapping; with anything
    else it raises [TypeError] and changes nothing.  The receiver, the
    user's state, the log and the files are left as they were.  A wrapper
    that has a function passes every call, a single callable argument
    included, to the wrapped function's path. *)
Theorem unbound_call args kwargs s :
  (_fnc (self s) = VNone →
   let s' := snd (__call__ args kwargs s) in
   self s' = self s ∧ user s' = user s ∧ trace s' = trace s ∧
   (∀ d node, fs s !! d = Some node → fs s' !! d = Some node) ∧
   ((__call__ args kwargs s = (Raise TypeError, s) ∧
     ¬ ∃ fnc, (args = [fnc] ∧ kwargs = []) ∨ (args = [] ∧ kwargs = [("fnc", fnc)]))
    ∨ ∃ fnc,
        ((args = [fnc] ∧ kwargs = []) ∨ (args = [] ∧ kwargs = [("fnc", fnc)])) ∧
        fst (__call__ args kwargs s)
        = Ok (Wrapper (Memoize fnc (_key (self s)) (_persistent (self s))
                         (_lazy (self s)) (_debug (self s)) (_folder (self s))
                         ∅ None)))) ∧
  (is_None (_fnc (self s)) = false →
   __call__ args kwargs s
   = (match fst (_call_without_arguments args kwargs s) with
      | Ok v => Ok (Returned v)
      | Raise e => Raise e
      end, snd (_call_without_arguments args kwargs s))).
Proof.
  split.
  - intros Hfnc. cbv zeta. rewrite (__call___unbound _ _ _ Hfnc). cbv zeta.
    assert (∀ d node, fs s !! d = Some node →
      (if _persistent (self s)
          && negb (os_path_exists (fs s) (Name (_folder (self s))))
       then <[_folder (self s) := Dir ∅]> (fs s) else fs s) !! d = Some node)
      as Hkeep.
    { intros d node Hd. destruct (_ && _) eqn:Hmk; [|done].
      apply andb_true_iff in Hmk as [_ Hno]. apply negb_true_iff in Hno.
      unfold os_path_exists in Hno. apply bool_decide_eq_false in Hno.
      rewrite lookup_insert_ne; [done|]. intros <-. apply Hno. by eexists. }
    destruct args as [|a [|a' args]]; destruct kwargs as [|[key v] [|kv kwargs]];
      try (cbn [snd fst with_fs self user trace fs];
           do 4 (split; [done|]); right; exists a; by auto);
      try (cbn [snd]; do 4 (split; [done|]); left;
           split; [done|]; by intros (fnc & [[[=] [=]]|[[=] [=]]])).
    case_bool_decide as Hkey.
    + subst key. cbn [snd fst with_fs self user trace fs].
      do 4 (split; [done|]). right. exists v. by auto.
    + cbn [snd]. do 4 (split; [done|]). left. split; [done|].
      intros (fnc & [[[=] _]|[_ [= -> _]]]). done.
  - intros Hfnc. unfold __call__. unfold bind at 1. unfold get_self at 1.
    rewrite Hfnc. unfold bind, ret.
    by destruct (_call_without_arguments args kwargs s) as [[v|e] s'].
Qed.

(** *** What the key does not see *)



(** X13: a lazy argument is not part of the key.  Once a call whose first
    argument is the callable [c1] has returned [r], the call with another
    callable [c2] in its place hits the entry: it returns [r], and [c2] is
    neither forced nor passed to the wrapped function, which is not invoked
    (nothing changes but the recorded tier). *)
Theorem callable_arguments_share_entry c1 c2 args kwargs s v s1 :
  "__name" ∉ co_dict c1 → "__name" ∉ co_dict c2 →
  _call_without_arguments (VFun c1 :: args) kwargs s = (Ok v, s1) →
  ∃ k r tier,
    v = reported (self s) r k tier ∧
    ((∀ b, pickle_dumps r = Ok b → pickle_loads b = Ok r) →
     ∃ tier', (tier' = "memory" ∨ tier' = "disk") ∧
       _call_without_arguments (VFun c2 :: args) kwargs s1
       = (Ok (reported (self s) r k tier'), looked_up tier' s1)).
Proof.
  intros Hc1 Hc2 Hcall.
  destruct (later_hit _ _ _ _ _ Hcall) as (k & r & tier & Hk & Hv & _ & _ & Hlater).
  exists k, r, tier. split; [done|]. intros Hrt.
  apply (Hlater Hrt s1 (rtc_refl _ _)).
  by rewrite (callables_share_key _ c2 c1).
Qed.

Lemma derive_key_name o o' args kwargs :
  getattr___name__ (_fnc o') = getattr___name__ (_fnc o) →
  _key o' = _key o →
  derive_key o' args kwargs = derive_key o args kwargs.
Proof. unfold derive_key, key_input. by intros -> ->. Qed.

(** X14: the key holds the name of the wrapped function, not the function.
    When a call on a persistent wrapper with an empty in-memory mapping has
    returned [r], a wrapper on the same folder around any object [g] that
    has the same [__name__] (another function of that name, say) returns
    [r] for the same arguments, from disk; [g] is not invoked. *)
Theorem same_name_shares_entries args kwargs s v s1 :
  _persistent (self s) = true →
  _cache (self s) = ∅ →
  _call_without_arguments args kwargs s = (Ok v, s1) →
  ∃ k r tier,
    v = reported (self s) r k tier ∧
    ((∀ b, pickle_dumps r = Ok b → pickle_loads b = Ok r) →
     ∀ g lazy debug h t,
       getattr___name__ g = getattr___name__ (_fnc (self s)) →
       let s2 := snd (__init__ g (_key (self s)) true lazy debug
                        (_folder (self s)) (State (self s1) (fs s1) h t)) in
       _call_without_arguments args kwargs s2
       = (Ok (reported (self s2) r k "disk"), looked_up "disk" s2)).
Proof.
  intros Hp Hempty Hcall.
  destruct (call_ok _ _ _ _ _ Hcall) as (k & r & tier & Hk & -> & Hcase).
  exists k, r, tier. split; [done|]. intros Hrt g lazy debug h t Hname.
  assert (∃ es b, fs s1 !! _folder (self s) = Some (Dir es) ∧ es !! k = Some b
                  ∧ pickle_loads b = Ok r) as (es & b & Hf & Hes & Hr).
  { destruct Hcase as [(b & Hst & Hr & ->)|(Hst & _)].
    - unfold stored in Hst. rewrite Hempty, Hp, lookup_empty in Hst.
      cbn [fs looked_up with_self].
      destruct (fs s !! _folder (self s)) as [[c|es]|]; try done.
      destruct (es !! k) as [b'|] eqn:Hes; [|done].
      injection Hst as _ ->. by exists es, b.
    - destruct (call_miss _ _ _ _ _ _ Hk Hst Hcall)
        as (c & args' & kwargs' & cs & h1 & r' & b & _ & _ & _ & _ & Hb & _ & Hfs & Hv).
      rewrite Hp in Hfs. destruct Hfs as (es & Hf & Hes & ->).
      assert (r' = r) as ->.
      { unfold reported in Hv. destruct (_debug (self s)); congruence. }
      exists (<[k := b]> es), b. rewrite !lookup_insert_eq. auto. }
  rewrite __init___run. cbv zeta. cbn [snd fs user trace self].
  assert (os_path_exists (fs s1) (Name (_folder (self s))) = true) as ->.
  { unfold os_path_exists. rewrite Hf. by apply bool_decide_eq_true. }
  cbn [andb negb].
  match goal with |- _call_without_arguments _ _ ?s2 = _ =>
    apply (call_hit args kwargs s2 k "disk" b r) end; [| |done].
  - rewrite <- Hk. by apply derive_key_name.
  - unfold stored. cbn [self _cache _persistent _folder fs].
    by rewrite lookup_empty, Hf, Hes.
Qed.

(** *** The debug flag *)

Lemma lazy_arg_self x o s :
  lazy_arg x (with_self o s)
  = (fst (lazy_arg x s), with_self o (snd (lazy_arg x s))).
Proof.
  unfold lazy_arg. destruct x; try done. cbn [callable].
  by rewrite !call_object_run.
Qed.

Lemma mapM_self {A B} (f : A → M heap B) o :
  (∀ a s, f a (with_self o s) = (fst (f a s), with_self o (snd (f a s)))) →
  ∀ l s, mapM f l (with_self o s)
         = (fst (mapM f l s), with_self o (snd (mapM f l s))).
Proof.
  intros Hf l. induction l as [|a l IH]; intros s; [done|].
  rewrite !mapM_cons, Hf. destruct (f a s) as [[b|e] s1]; cbn [fst snd]; [|done].
  rewrite IH. by destruct (mapM f l s1) as [[bs|e] s2].
Qed.

Lemma _lazy_evaluation_cases args kwargs s :
  _lazy_evaluation args kwargs s =
  match mapM lazy_arg args s with
  | (Ok ys, s1) =>
      match mapM lazy_arg (kwargs.*2) s1 with
      | (Ok vs, s2) => (Ok (ys, zip (kwargs.*1) vs), s2)
      | (Raise e, s2) => (Raise e, s2)
      end
  | (Raise e, s1) => (Raise e, s1)
  end.
Proof.
  unfold _lazy_evaluation. unfold bind at 1.
  destruct (mapM lazy_arg args s) as [[ys|e] s1]; [|done].
  unfold bind at 1. rewrite mapM_lazy_kwargs.
  by destruct (mapM lazy_arg (kwargs.*2) s1) as [[vs|e] s2].
Qed.

Lemma passes_self (lazy : bool) args kwargs o s :
  let m := if lazy then _lazy_evaluation args kwargs else ret (args, kwargs) in
  m (with_self o s) = (fst (m s), with_self o (snd (m s))).
Proof.
  destruct lazy; [|done]. cbv zeta. rewrite !_lazy_evaluation_cases.
  rewrite (mapM_self lazy_arg o (λ a s, lazy_arg_self a o s)).
  destruct (mapM lazy_arg args s) as [[ys|e] s1]; cbn [fst snd]; [|done].
  rewrite (mapM_self lazy_arg o (λ a s, lazy_arg_self a o s)).
  by destruct (mapM lazy_arg (kwargs.*2) s1) as [[vs|e] s2].
Qed.

(** X15: the debug flag changes what a call returns and nothing else.  Run
    from the same state with the flag set to [d], a call raises the same
    exception or returns the same value, now reported as [d] asks (the value
    itself, or the triple with the same key and tier), and it leaves the
    same state, up to the flag. *)
Theorem debug_only_wraps args kwargs s d :
  let sd := with_self (set_debug d (self s)) s in
  let s' := snd (_call_without_arguments args kwargs s) in
  snd (_call_without_arguments args kwargs sd)
  = with_self (set_debug d (self s')) s' ∧
  match fst (_call_without_arguments args kwargs s) with
  | Raise e => fst (_call_without_arguments args kwargs sd) = Raise e
  | Ok v =>
      ∃ r k tier,
        v = reported (self s) r k tier ∧
        fst (_call_without_arguments args kwargs sd)
        = Ok (reported (self sd) r k tier)
  end.
Proof.
  cbv zeta. rewrite !call_run.
  rewrite (derive_key_ext (self s) (self (with_self (set_debug d (self s)) s)))
    by done.
  destruct (derive_key (self s) args kwargs) as [k|e]; [|done].
  change (stored (self (with_self (set_debug d (self s)) s))
            (fs (with_self (set_debug d (self s)) s)) k)
    with (stored (self s) (fs s) k).
  destruct (stored (self s) (fs s) k) as [[tier b]|].
  { destruct (pickle_loads b) as [r|e]; [|done]. split; [done|].
    by exists r, k, tier. }
  change (_lazy (self (with_self (set_debug d (self s)) s)))
    with (_lazy (self s)).
  change (looked_up "function" (with_self (set_debug d (self s)) s))
    with (with_self (set_debug d (set_latest_source "function" (self s))) s).
  change (looked_up "function" s)
    with (with_self (set_latest_source "function" (self s)) s).
  rewrite !(passes_self (_lazy (self s))).
  destruct ((if _lazy (self s) then _lazy_evaluation args kwargs
             else ret (args, kwargs)) s) as [[ak|e] sp]; cbn [fst snd]; [|done].
  cbn [self with_self set_debug set_latest_source _fnc].
  destruct (_fnc (self s)) as [| | | | | | |c]; try done.
  rewrite !call_object_run. cbn [user with_self self fs trace].
  destruct (apply c ak.1 ak.2 (user sp)) as [[retval|e] h2]; cbn [fst snd];
    [|done].
  rewrite !_write_cache_run.
  destruct (pickle_dumps retval) as [b|e]; [|done].
  cbv zeta. cbn [self fs _persistent _folder _cache set_cache with_self].
  destruct (_ && _).
  - destruct (write_file _ _ _) as [f|e]; [|done].
    rewrite !(report_run _ _ _ "function") by done. split; [done|].
    by exists retval, k, "function".
  - rewrite !(report_run _ _ _ "function") by done. split; [done|].
    by exists retval, k, "function".
Qed.

(** X16: a result that cannot be pickled is returned to nobody.  When the
    wrapped function returns on a miss (lazy evaluation off) a value that
    [pickle.dumps] rejects, the call raises that error although the function
    has run; nothing is stored in either tier, so the same call made again
    invokes the function again. *)
Theorem unpicklable_result_not_cached args kwargs s k c retval h e :
  derive_key (self s) args kwargs = Ok k →
  stored (self s) (fs s) k = None →
  _lazy (self s) = false →
  _fnc (self s) = VFun c →
  apply c args kwargs (user s) = (Ok retval, h) →
  pickle_dumps retval = Raise e →
  ∃ s',
    _call_without_arguments args kwargs s = (Raise e, s') ∧
    fs s' = fs s ∧ _cache (self s') = _cache (self s) ∧
    user s' = h ∧ trace s' = trace s ++ [Invoked c args kwargs] ∧
    trace (snd (_call_without_arguments args kwargs s'))
    = trace s' ++ [Invoked c args kwargs].
Proof.
  intros Hk Hst Hlazy Hfnc Happ Hb. eexists.
  rewrite (miss_invokes _ _ _ _ _ Hk Hst Hlazy Hfnc), Happ.
  rewrite _write_cache_run, Hb.
  split; [done|]. do 4 (split; [done|]).
  rewrite (miss_invokes _ _ _ k c); try done.
  cbn [user trace]. destruct (apply c args kwargs h) as [[retval'|e'] h']; [|done].
  match goal with |- context [_write_cache k retval' ?s2] =>
    by destruct (_write_cache_user k retval' s2) as [-> _] end.
Qed.

End properties.

(** ** Concrete runs *)

Section runs.
Import Toy.

Lemma run_pair {A} (m : M nat A) (s : state nat) r :
  fst (m s) = r → m s = (r, snd (m s)).
Proof. intros <-. by destruct (m s). Qed.

(** The example of the specification: [add(1, 2)] twice gives [3] both
    times and one invocation; after [clear()] it gives [3] again and the
    counter is at two. *)
Example add_scenario :
  let call := _call_without_arguments [VInt 1; VInt 2] [] in
  let s0 := wrap None false false false in
  let s1 := snd (call s0) in
  let s2 := snd (call s1) in
  let s3 := snd (clear s2) in
  let s4 := snd (call s3) in
  (fst (call s0), user s1) = (Ok (VInt 3), 1) ∧
  (fst (call s1), user s2) = (Ok (VInt 3), 1) ∧
  fst (clear s2) = Ok () ∧
  (fst (call s3), user s4) = (Ok (VInt 3), 2).
Proof. vm_compute. done. Qed.


Lemma key_collision_witness :
  let s := wrap (Some "persistent-add") false false false in
  let s1 := snd (_call_without_arguments [VInt 1; VInt 2] [] s) in
  _call_without_arguments [VInt 1; VInt 2] [] s = (Ok (VInt 3), s1) ∧
  ∃ tier, _call_without_arguments [VInt 10; VInt 20] [] s1
          = (Ok (VInt 3), looked_up tier s1).
Proof.
  intros s s1.
  assert (_call_without_arguments [VInt 1; VInt 2] [] s = (Ok (VInt 3), s1))
    as Hcall by (apply run_pair; vm_compute; reflexivity).
  split; [exact Hcall|].
  destruct (key_collision [VInt 1; VInt 2] [] [VInt 10; VInt 20] [] _ _ _ Hcall)
    as [Hexplicit Hsame].
  destruct (Hsame (Hexplicit ltac:(vm_compute; eexists; reflexivity)))
    as (k & r & tier & Hv & Hlater).
  vm_compute in Hv. subst r.
  destruct (Hlater (λ b Hb, ltac:(vm_compute in Hb; injection Hb as <-;
                                  vm_compute; reflexivity)) s1 (rtc_refl _ _))
    as (tier' & _ & Hagain).
  exists tier'. exact Hagain.
Defined.

Lemma disk_hit_not_promoted_witness :
  let call := _call_without_arguments [VInt 1; VInt 2] [] in
  let s := restart None true false true (snd (call (wrap None true false true))) in
  let s2 := Nat.iter 2 (λ s, snd (call s)) s in
  _cache (self s2) = _cache (self s) ∧
  _cache (self s2) !! "63523de3" = None ∧
  call s2 = (Ok (reported (self s) (VInt 3) "63523de3" "disk"), looked_up "disk" s).
Proof.
  intros call s. subst call.
  eapply (disk_hit_not_promoted [VInt 1; VInt 2] [] s "63523de3" _ (VInt 3));
    vm_compute; reflexivity.
Defined.




Lemma lazy_resolution_witness :
  let s := wrap None false true false in
  let s' := snd (_call_without_arguments [VFun two; VInt 2] [] s) in
  _call_without_arguments [VFun two; VInt 2] [] s = (Ok (VInt 4), s') ∧
  ∃ c args' kwargs',
    Forall2 (λ x y, callable x = false → y = x) [VFun two; VInt 2] args' ∧
    trace s' = trace s ++ map Forced [two] ++ [Invoked c args' kwargs'].
Proof.
  intros s s'.
  assert (_call_without_arguments [VFun two; VInt 2] [] s = (Ok (VInt 4), s'))
    as Hcall by (apply run_pair; vm_compute; reflexivity).
  split; [exact Hcall|].
  assert (_lazy (self s) = true) as Hlazy by (vm_compute; reflexivity).
  assert (derive_key (self s) [VFun two; VInt 2] [] = Ok "40207523") as Hk
    by (vm_compute; reflexivity).
  assert (stored (self s) (fs s) "40207523" = None) as Hst
    by (vm_compute; reflexivity).
  destruct (proj1 (lazy_resolution _ _ _ _ Hlazy Hk) Hst _ _ Hcall)
    as (c & args' & kwargs' & h1 & h2 & r & _ & _ & _ & _ & Hsame & _ & _ & Htr & _).
  exists c, args', kwargs'. split; [exact Hsame|exact Htr].
Defined.



(** C2, at the failing input: [_memkey] replaces the function [g], which has
    the name [g], by the sentinel; it leaves a callable keyword argument in
    place; and it gives calls with the differently named functions [g] and
    [h] the same key. *)
Theorem named_callable_loses_name :
  let s := wrap None false false false in
  memkey_arg (VFun named_g) = Ok (VStr "__nameless__") ∧
  key_input (self s) [VFun named_g] [("f", VFun named_g)]
  = Ok (VList [VStr "add"; VList [VStr "__nameless__"];
               VDict [("f", VFun named_g)]]) ∧
  fst (_memkey [VFun named_g] [] s) = fst (_memkey [VFun named_h] [] s) ∧
  is_Some (co_name named_g).
Proof. vm_compute. repeat split; by eexists. Qed.



Lemma exception_not_cached_witness :
  let s := wrap None false false false in
  ∃ s', _call_without_arguments [VInt 1] [] s = (Raise TypeError, s') ∧
        _cache (self s') = _cache (self s) ∧
        trace (snd (_call_without_arguments [VInt 1] [] s'))
        = trace s' ++ [Invoked add [VInt 1] []].
Proof.
  intros s.
  assert (derive_key (self s) [VInt 1] [] = Ok "7e836de4") as Hk
    by (vm_compute; reflexivity).
  assert (stored (self s) (fs s) "7e836de4" = None) as Hst
    by (vm_compute; reflexivity).
  assert (_lazy (self s) = false) as Hlazy by (vm_compute; reflexivity).
  assert (_fnc (self s) = VFun add) as Hfnc by (vm_compute; reflexivity).
  assert (apply add [VInt 1] [] (user s) = (Raise TypeError, 0)) as Happ
    by (vm_compute; reflexivity).
  destruct (exception_not_cached _ _ _ _ _ _ _ Hk Hst Hlazy Hfnc Happ)
    as (s' & Hcall & _ & Hc & _ & _ & Hagain).
  exists s'. split; [exact Hcall|split; [exact Hc|exact Hagain]].
Defined.

Lemma write_failure_keeps_memory_witness :
  let s := with_fs ∅ (wrap None true false false) in
  ∃ e s',
    _call_without_arguments [VInt 1; VInt 2] [] s = (Raise e, s') ∧
    _call_without_arguments [VInt 1; VInt 2] [] s'
    = (Ok (VInt 3), looked_up "memory" s').
Proof.
  intros s.
  assert (derive_key (self s) [VInt 1; VInt 2] [] = Ok "63523de3") as Hk
    by (vm_compute; reflexivity).
  assert (_cache (self s) !! "63523de3" = None) as Hc by (vm_compute; reflexivity).
  assert (_persistent (self s) = true) as Hp by (vm_compute; reflexivity).
  assert (∀ es, fs s !! _folder (self s) ≠ Some (Dir es)) as Hdir
    by (intros es; vm_compute; discriminate).
  assert (_lazy (self s) = false) as Hlazy by (vm_compute; reflexivity).
  assert (_fnc (self s) = VFun add) as Hfnc by (vm_compute; reflexivity).
  assert (apply add [VInt 1; VInt 2] [] (user s) = (Ok (VInt 3), 1)) as Happ
    by (vm_compute; reflexivity).
  assert (pickle_dumps (VInt 3)
          = Ok [Byte.x49; Byte.x2b; Byte.x31; Byte.x31; Byte.x2e]) as Hb
    by (vm_compute; reflexivity).
  assert (pickle_loads [Byte.x49; Byte.x2b; Byte.x31; Byte.x31; Byte.x2e]
          = Ok (VInt 3)) as Hload by (vm_compute; reflexivity).
  destruct (write_failure_keeps_memory _ _ _ _ _ _ _ _
              Hk Hc Hp Hdir Hlazy Hfnc Happ Hb Hload)
    as (e & s' & Hcall & _ & _ & _ & Hagain).
  exists e, s'. split; [exact Hcall|exact Hagain].
Defined.

Lemma corrupt_entry_poisons_witness :
  let o := self (wrap None false false false) in
  let s := with_self (set_cache {[ "63523de3" := [] ]} o) (wrap None false false false) in
  _call_without_arguments [VInt 1; VInt 2] [] s
  = (Raise UnpicklingError, looked_up "memory" s).
Proof.
  intros o s.
  assert (derive_key (self s) [VInt 1; VInt 2] [] = Ok "63523de3") as Hk
    by (vm_compute; reflexivity).
  assert (stored (self s) (fs s) "63523de3" = Some ("memory", [])) as Hst
    by (vm_compute; reflexivity).
  assert (pickle_loads [] = Raise UnpicklingError) as Hload
    by (vm_compute; reflexivity).
  exact (corrupt_entry_poisons _ _ _ _ _ _ _ Hk Hst Hload s (rtc_refl _ _)).
Defined.

Lemma no_name_no_key_witness :
  let s := snd (__init__ (VFun partial1) None false false false ".memoize" boot) in
  ∃ e, _call_without_arguments [VInt 1; VInt 2] [] s = (Raise e, s).
Proof.
  intros s.
  assert (_key (self s) = None) as Hkey by (vm_compute; reflexivity).
  assert (getattr___name__ (_fnc (self s)) = Raise (AttributeError "__name__"))
    as Hname by (vm_compute; reflexivity).
  exact (no_name_no_key [VInt 1; VInt 2] [] s _ Hkey Hname).
Defined.

Lemma non_persistent_never_touches_disk_witness :
  let s := wrap None false false false in
  fs (snd (_call_without_arguments [VInt 1; VInt 2] [] s)) = fs s.
Proof.
  intros s.
  assert (_persistent (self s) = false) as Hp by (vm_compute; reflexivity).
  exact (proj1 (proj1 (non_persistent_never_touches_disk s Hp) [VInt 1; VInt 2] [])).
Defined.

Lemma unbound_call_witness :
  let s := snd (__init__ VNone (Some "k") true false false ".memoize" boot) in
  self (snd (__call__ [VFun add] [] s)) = self s.
Proof.
  intros s.
  assert (_fnc (self s) = VNone) as Hfnc by (vm_compute; reflexivity).
  exact (proj1 (proj1 (unbound_call [VFun add] [] s) Hfnc)).
Defined.


Lemma callable_arguments_share_entry_witness :
  let s := wrap None false true false in
  let s1 := snd (_call_without_arguments [VFun two; VInt 2] [] s) in
  _call_without_arguments [VFun two; VInt 2] [] s = (Ok (VInt 4), s1) ∧
  ∃ tier, _call_without_arguments [VFun named_g; VInt 2] [] s1
          = (Ok (VInt 4), looked_up tier s1).
Proof.
  intros s s1.
  assert (_call_without_arguments [VFun two; VInt 2] [] s = (Ok (VInt 4), s1))
    as Hcall by (apply run_pair; vm_compute; reflexivity).
  split; [exact Hcall|].
  assert ("__name" ∉ co_dict two) as H1 by (vm_compute; apply not_elem_of_nil).
  assert ("__name" ∉ co_dict named_g) as H2 by (vm_compute; apply not_elem_of_nil).
  destruct (callable_arguments_share_entry two named_g [VInt 2] [] s _ _ H1 H2 Hcall)
    as (k & r & tier & Hv & Hlater).
  vm_compute in Hv. subst r.
  destruct (Hlater (λ b Hb, ltac:(vm_compute in Hb; injection Hb as <-;
                                  vm_compute; reflexivity)))
    as (tier' & _ & Hagain).
  exists tier'. exact Hagain.
Defined.

Lemma same_name_shares_entries_witness :
  let call := _call_without_arguments [VInt 1; VInt 2] [] in
  let s := wrap None true false false in
  let s1 := snd (call s) in
  let g := VFun (Code 9 (Some "add") []) in
  let s2 := snd (__init__ g None true false false ".memoize"
                   (State (self s1) (fs s1) 0 [])) in
  call s = (Ok (VInt 3), s1) ∧
  call s2 = (Ok (VInt 3), looked_up "disk" s2).
Proof.
  intros call s s1 g s2. subst call.
  assert (_call_without_arguments [VInt 1; VInt 2] [] s = (Ok (VInt 3), s1))
    as Hcall by (apply run_pair; vm_compute; reflexivity).
  split; [exact Hcall|].
  assert (_persistent (self s) = true) as Hp by (vm_compute; reflexivity).
  assert (_cache (self s) = ∅) as Hempty by (vm_compute; reflexivity).
  destruct (same_name_shares_entries _ _ _ _ _ Hp Hempty Hcall)
    as (k & r & tier & Hv & Hlater).
  vm_compute in Hv. subst r.
  exact (Hlater (λ b Hb, ltac:(vm_compute in Hb; injection Hb as <-;
                               vm_compute; reflexivity))
           g false false 0 [] eq_refl).
Defined.

Lemma unpicklable_result_not_cached_witness :
  let call := @_call_without_arguments nat pickle hashlib Factory.program [] [] in
  let s := snd (__init__ (VFun Factory.make) None false false false ".memoize" boot) in
  ∃ s', call s = (Raise PicklingError, s') ∧
        _cache (self s') = _cache (self s) ∧
        trace (snd (call s')) = trace s' ++ [Invoked Factory.make [] []].
Proof.
  intros call s. subst call.
  assert (derive_key (self s) [] [] = Ok "755805c0") as Hk
    by (vm_compute; reflexivity).
  assert (stored (self s) (fs s) "755805c0" = None) as Hst
    by (vm_compute; reflexivity).
  assert (_lazy (self s) = false) as Hlazy by (vm_compute; reflexivity).
  assert (_fnc (self s) = VFun Factory.make) as Hfnc by (vm_compute; reflexivity).
  assert (@apply nat Factory.program Factory.make [] [] (user s)
          = (Ok (VFun two), 1)) as Happ by (vm_compute; reflexivity).
  assert (pickle_dumps (VFun two) = Raise PicklingError) as Hb
    by (vm_compute; reflexivity).
  destruct (@unpicklable_result_not_cached nat pickle hashlib Factory.program
              _ _ _ _ _ _ _ _ Hk Hst Hlazy Hfnc Happ Hb)
    as (s' & Hcall & _ & Hc & _ & _ & Hagain).
  exists s'. split; [exact Hcall|split; [exact Hc|exact Hagain]].
Defined.

End runs.
